(** * Go-Projects: the five balancing strategies and the record store

    Shallow embedding of the load balancer programs of the repository
    (round robin, weighted round robin, least connections, least response
    time, source-IP hash) with the properties of their [pickServer],
    [IsAlive], [Serve] and [serveProxy] functions, and of the file-backed
    record store of golang-db with the properties of its driver.

    Conventions
    - Go's [int] and [time.Duration] are 64 bits wide (amd64, arm64); they
      are integers of [Z] kept in range by [wrap_int].
    - A [*simpleServer] held in [lb.servers] is identified by its position
      in that slice; a nil [Server] is [None].
    - [sync.Mutex] makes every method body one atomic step, so a method is
      a transformer of the state of its receiver.
    - The network is an input: the answer to the [t]-th GET issued by the
      process, as a function of the address it is sent to. *)

From Stdlib Require Import ZArith String Ascii Lia.
From stdpp Require Import base list gmap strings.

Local Open Scope Z_scope.

(** ** Go machine integers *)

Definition max_int : Z := 2 ^ 63 - 1.
Definition min_int : Z := - 2 ^ 63.

(** Signed overflow wraps around in Go. *)
Definition wrap_int (z : Z) : Z := (z + 2 ^ 63) mod 2 ^ 64 - 2 ^ 63.

Definition in_int (z : Z) : Prop := min_int <= z <= max_int.

(** [len] of a slice, as an [int]. *)
Definition len {A : Type} (l : list A) : Z := Z.of_nat (length l).

(** ** Outcomes of a run and the state monad of the methods *)

Inductive Exec (A : Type) : Type :=
| Ret (a : A)       (* the call returns *)
| Panic             (* run-time panic: index out of range, division by zero *)
| OutOfFuel.        (* the loop did not exit within the given number of turns *)

Arguments Ret {A} a.
Arguments Panic {A}.
Arguments OutOfFuel {A}.

Definition M (S A : Type) : Type := S -> Exec (A * S).

Definition ret {S A : Type} (a : A) : M S A := fun s => Ret (a, s).

Definition bind {S A B : Type} (m : M S A) (k : A -> M S B) : M S B :=
  fun s =>
    match m s with
    | Ret (a, s') => k a s'
    | Panic => Panic
    | OutOfFuel => OutOfFuel
    end.

Definition panic {S A : Type} : M S A := fun _ => Panic.
Definition out_of_fuel {S A : Type} : M S A := fun _ => OutOfFuel.

Notation "x <- m ;; k" := (bind m (fun x => k))
  (at level 100, m at next level, right associativity).

(** ** net/http: the liveness probe *)

Definition StatusOK : Z := 200.
Definition StatusNoContent : Z := 204.
Definition StatusServiceUnavailable : Z := 503.

(** Why [client.Get] came back with a non-nil error. *)
Inductive transport_error : Type :=
| TimeoutExceeded      (* the 2 second [Timeout] of the client ran out *)
| ConnectionFailed.    (* refused, reset, unresolved host, ... *)

(** [resp, err := client.Get(addr)]: an error, or a response with its status. *)
Inductive GetResult : Type :=
| GetErr (err : transport_error)
| GetResp (StatusCode : Z).

(** The answer to the [t]-th GET of the process, sent to an address. *)
Definition Network : Type := nat -> string -> GetResult.

(** Body of [simpleServer.IsAlive] after the GET, the same in every program:
    [if err != nil || resp.StatusCode != http.StatusOK { return false }; return true]. *)
Definition probe_alive (r : GetResult) : bool :=
  match r with
  | GetErr _ => false
  | GetResp code => if negb (code =? StatusOK) then false else true
  end.

(** The 2xx class of HTTP status codes. *)
Definition success_status (code : Z) : bool := (200 <=? code) && (code <? 300).

(** What the dispatcher wrote to the client. *)
Inductive Response : Type :=
| HttpError (status : Z)     (* [http.Error(rw, ..., status)], nothing forwarded *)
| Proxied (target : nat).    (* [targetServer.Serve(rw, req)] on this backend *)

(** ** crypto/md5 and encoding/binary, as used by [hashIP] *)

Module md5.

Definition K : list Z :=
  [ 3614090360; 3905402710; 606105819; 3250441966;
    4118548399; 1200080426; 2821735955; 4249261313;
    1770035416; 2336552879; 4294925233; 2304563134;
    1804603682; 4254626195; 2792965006; 1236535329;
    4129170786; 3225465664; 643717713; 3921069994;
    3593408605; 38016083; 3634488961; 3889429448;
    568446438; 3275163606; 4107603335; 1163531501;
    2850285829; 4243563512; 1735328473; 2368359562;
    4294588738; 2272392833; 1839030562; 4259657740;
    2763975236; 1272893353; 4139469664; 3200236656;
    681279174; 3936430074; 3572445317; 76029189;
    3654602809; 3873151461; 530742520; 3299628645;
    4096336452; 1126891415; 2878612391; 4237533241;
    1700485571; 2399980690; 4293915773; 2240044497;
    1873313359; 4264355552; 2734768916; 1309151649;
    4149444226; 3174756917; 718787259; 3951481745 ].

Definition shifts : list Z :=
  [ 7; 12; 17; 22; 7; 12; 17; 22; 7; 12; 17; 22; 7; 12; 17; 22;
    5; 9; 14; 20; 5; 9; 14; 20; 5; 9; 14; 20; 5; 9; 14; 20;
    4; 11; 16; 23; 4; 11; 16; 23; 4; 11; 16; 23; 4; 11; 16; 23;
    6; 10; 15; 21; 6; 10; 15; 21; 6; 10; 15; 21; 6; 10; 15; 21 ].

Definition add32 (a b : Z) : Z := (a + b) mod 2 ^ 32.
Definition not32 (a : Z) : Z := Z.lxor a (2 ^ 32 - 1).
Definition rotl32 (x c : Z) : Z :=
  Z.lor (Z.shiftl x c mod 2 ^ 32) (Z.shiftr x (32 - c)).

(** The [n] low bytes of [w], least significant first. *)
Definition le_bytes (n : nat) (w : Z) : list Z :=
  map (fun k => Z.land (Z.shiftr w (8 * Z.of_nat k)) 255) (seq 0 n).

Definition le_word (b : list Z) : Z :=
  Z.lor (nth 0 b 0)
    (Z.lor (Z.shiftl (nth 1 b 0) 8)
       (Z.lor (Z.shiftl (nth 2 b 0) 16) (Z.shiftl (nth 3 b 0) 24))).

Fixpoint words (n : nat) (b : list Z) : list Z :=
  match n with
  | O => []
  | S n' => le_word (firstn 4 b) :: words n' (skipn 4 b)
  end.

Definition state : Type := (Z * Z * Z * Z)%type.

Definition init : state := (1732584193, 4023233417, 2562383102, 271733878).

Definition round (X : list Z) (st : state) (i : nat) : state :=
  let '(a, b, c, d) := st in
  let iz := Z.of_nat i in
  let '(f, g) :=
    if iz <? 16 then (Z.lor (Z.land b c) (Z.land (not32 b) d), iz)
    else if iz <? 32 then
      (Z.lor (Z.land d b) (Z.land (not32 d) c), (5 * iz + 1) mod 16)
    else if iz <? 48 then (Z.lxor b (Z.lxor c d), (3 * iz + 5) mod 16)
    else (Z.lxor c (Z.lor b (not32 d)), (7 * iz) mod 16) in
  let f' := add32 (add32 (add32 f a) (nth i K 0)) (nth (Z.to_nat g) X 0) in
  (d, add32 b (rotl32 f' (nth i shifts 0)), b, c).

Definition block (st : state) (chunk : list Z) : state :=
  let '(a0, b0, c0, d0) := st in
  let '(a, b, c, d) := fold_left (round (words 16 chunk)) (seq 0 64) st in
  (add32 a0 a, add32 b0 b, add32 c0 c, add32 d0 d).

Fixpoint blocks (n : nat) (data : list Z) (st : state) : state :=
  match n with
  | O => st
  | S n' => blocks n' (skipn 64 data) (block st (firstn 64 data))
  end.

(** A 0x80 byte, zeros up to 56 modulo 64, then the bit length on 8 bytes. *)
Definition pad (data : list Z) : list Z :=
  let n := len data in
  data ++ 128 :: repeat 0 (Z.to_nat ((55 - n) mod 64))
       ++ le_bytes 8 ((8 * n) mod 2 ^ 64).

(** [md5.Sum]: the 16 bytes of the digest. *)
Definition Sum (data : list Z) : list Z :=
  let padded := pad data in
  let '(a, b, c, d) := blocks (length padded / 64)%nat padded init in
  le_bytes 4 a ++ le_bytes 4 b ++ le_bytes 4 c ++ le_bytes 4 d.

End md5.

(** [[]byte(s)] *)
Definition bytes_of_string (s : string) : list Z :=
  map (fun c => Z.of_N (N_of_ascii c)) (list_ascii_of_string s).

(** [binary.BigEndian.Uint32(b)]; the digest is a [[16]byte], so its bounds
    check never fails. *)
Definition BigEndian_Uint32 (b : list Z) : Z :=
  Z.lor (nth 3 b 0)
    (Z.lor (Z.shiftl (nth 2 b 0) 8)
       (Z.lor (Z.shiftl (nth 1 b 0) 16) (Z.shiftl (nth 0 b 0) 24))).

Definition hashIP (ip : string) : Z :=
  let hash := md5.Sum (bytes_of_string ip) in
  BigEndian_Uint32 hash.

(** ** Slices and integer operators inside the monad *)

(** [l[i]]: panics when [i] is out of range. *)
Definition index {S A : Type} (l : list A) (i : Z) : M S A :=
  if i <? 0 then panic
  else match l !! Z.to_nat i with
       | Some x => ret x
       | None => panic
       end.

(** [a % b]: truncated remainder, panics on a zero divisor. *)
Definition go_rem {S : Type} (a b : Z) : M S Z :=
  if b =? 0 then panic else ret (Z.rem a b).

(** [int(x)] for an unsigned [x]. *)
Definition int_of_uint32 (x : Z) : Z := wrap_int x.

(** ** Source-IP hash (sourceIPHash.go) *)

Module SourceIPHash.

Record simpleServer : Type := { addr : string }.

Record loadBalancer : Type := { port : string; servers : list simpleServer }.

Definition newSimpleServer (a : string) : simpleServer := {| addr := a |}.

Definition newLoadBalancer (port : string) (servers : list simpleServer)
  : loadBalancer :=
  {| port := port; servers := servers |}.

(** The only state that changes is the number of GETs issued so far. *)
Definition World : Type := nat.

Section Run.
Variable net : Network.
Variable lb : loadBalancer.

Definition IsAlive (s : simpleServer) : M World bool :=
  fun t => Ret (probe_alive (net t (addr s)), S t).

(** [serverIndex := int(hashIP(ip)) % len(lb.servers)] *)
Definition startIndex (ip : string) : M World Z :=
  go_rem (int_of_uint32 (hashIP ip)) (len (servers lb)).

(** [for !lb.servers[serverIndex].IsAlive() { serverIndex = (serverIndex + 1) % len(lb.servers) }].
    [serverIndex] has just indexed the slice, so [serverIndex + 1] is at most
    the length of the slice and does not wrap. *)
Fixpoint probe_loop (fuel : nat) (serverIndex : Z) : M World Z :=
  match fuel with
  | O => out_of_fuel
  | S fuel' =>
      server <- index (servers lb) serverIndex ;;
      alive <- IsAlive server ;;
      if negb alive then
        next <- go_rem (serverIndex + 1) (len (servers lb)) ;;
        probe_loop fuel' next
      else ret serverIndex
  end.

Definition pickServer (fuel : nat) (ip : string) : M World (option nat) :=
  serverIndex <- startIndex ip ;;
  serverIndex <- probe_loop fuel serverIndex ;;
  _ <- index (servers lb) serverIndex ;;
  ret (Some (Z.to_nat serverIndex)).

(** [s.proxy.ServeHTTP(rw, req)]: handed to the reverse proxy. *)
Definition Serve (target : nat) : M World unit := ret tt.

Definition serveProxy (fuel : nat) (RemoteAddr : string) : M World Response :=
  targetServer <- pickServer fuel RemoteAddr ;;
  match targetServer with
  | None => ret (HttpError StatusServiceUnavailable)
  | Some target => _ <- Serve target ;; ret (Proxied target)
  end.

End Run.

(** Pool [A, B]: B refuses the first two GETs of the process and answers
    200 afterwards, A always answers 200. *)
Definition flaky_pool : loadBalancer :=
  newLoadBalancer "8000"
    [newSimpleServer "http://a.example"; newSimpleServer "http://b.example"].

Definition flaky_net : Network :=
  fun t a =>
    if (a =? "http://b.example")%string && (t <? 2)%nat
    then GetErr ConnectionFailed
    else GetResp 200.

Definition dead_net : Network := fun _ _ => GetErr TimeoutExceeded.

(** Every GET is answered, with 204 No Content. *)
Definition no_content_net : Network := fun _ _ => GetResp StatusNoContent.

(** Value of [serverIndex] after [k] failed probes of the loop of
    [pickServer] entered with [serverIndex], in a pool of [n] backends: [k]
    times [serverIndex = (serverIndex + 1) % len(lb.servers)]. *)
Fixpoint probed_index (n : Z) (serverIndex : Z) (k : nat) : Z :=
  match k with
  | O => serverIndex
  | S k' => probed_index n (Z.rem (serverIndex + 1) n) k'
  end.

(** Position of the backend that the probe number [k] of [pickServer(ip)]
    is sent to, counting from 0. *)
Definition probed (lb : loadBalancer) (ip : string) (k : nat) : Z :=
  probed_index (len (servers lb))
    (Z.rem (int_of_uint32 (hashIP ip)) (len (servers lb))) k.

(** Pool [A, B, C]: B never answers, C always answers 200, and A answers
    200 to the first two GETs of the process and times out afterwards. *)
Definition drift_pool : loadBalancer :=
  newLoadBalancer "8000"
    [newSimpleServer "http://a.example"; newSimpleServer "http://b.example";
     newSimpleServer "http://c.example"].

Definition drift_net : Network :=
  fun t a =>
    if (a =? "http://b.example")%string then GetErr ConnectionFailed
    else if (a =? "http://a.example")%string && negb (t <? 2)%nat
         then GetErr TimeoutExceeded
         else GetResp 200.

End SourceIPHash.

(** ** Round robin *)

Module RoundRobin.

Record simpleServer : Type := { addr : string }.

Record loadBalancer : Type :=
  { port : string; roundRobinIndex : Z; servers : list simpleServer }.

Definition newSimpleServer (a : string) : simpleServer := {| addr := a |}.

Definition newLoadBalancer (port : string) (servers : list simpleServer)
  : loadBalancer :=
  {| port := port; roundRobinIndex := 0; servers := servers |}.

(** The balancer and the number of GETs issued so far. *)
Record World : Type := { lb : loadBalancer; clock : nat }.

Section Run.
Variable net : Network.

Definition IsAlive (s : simpleServer) : M World bool :=
  fun w =>
    Ret (probe_alive (net (clock w) (addr s)),
         {| lb := lb w; clock := S (clock w) |}).

Definition get_lb : M World loadBalancer := fun w => Ret (lb w, w).

Definition set_roundRobinIndex (i : Z) : M World unit :=
  fun w =>
    Ret (tt, {| lb := {| port := port (lb w); roundRobinIndex := i;
                         servers := servers (lb w) |};
                clock := clock w |}).

(** The [for] loop of [pickServer]. *)
Fixpoint pick_loop (fuel : nat) (startIndex : Z) : M World (option nat) :=
  match fuel with
  | O => out_of_fuel
  | S fuel' =>
      l <- get_lb ;;
      i <- go_rem (roundRobinIndex l) (len (servers l)) ;;
      server <- index (servers l) i ;;
      next <- go_rem (wrap_int (roundRobinIndex l + 1)) (len (servers l)) ;;
      _ <- set_roundRobinIndex next ;;
      alive <- IsAlive server ;;
      if alive then ret (Some (Z.to_nat i))
      else
        l' <- get_lb ;;
        if roundRobinIndex l' =? startIndex
        then ret None                      (* "All servers are down" *)
        else pick_loop fuel' startIndex
  end.

Definition pickServer (fuel : nat) : M World (option nat) :=
  l <- get_lb ;;
  pick_loop fuel (roundRobinIndex l).

Definition Serve (target : nat) : M World unit := ret tt.

Definition serveProxy (fuel : nat) : M World Response :=
  targetServer <- pickServer fuel ;;
  match targetServer with
  | None => ret (HttpError StatusServiceUnavailable)
  | Some target => _ <- Serve target ;; ret (Proxied target)
  end.

(** [n] calls of [pickServer] in a row, with the backends they returned. *)
Fixpoint picks (fuel : nat) (n : nat) : M World (list (option nat)) :=
  match n with
  | O => ret []
  | S n' =>
      r <- pickServer fuel ;;
      rs <- picks fuel n' ;;
      ret (r :: rs)
  end.

End Run.

(** The pool of the scenario: three backends at the given addresses. *)
Definition three_servers (a b c : string) : list simpleServer :=
  [newSimpleServer a; newSimpleServer b; newSimpleServer c].

(** The balancer over them with its cursor at [i], after [t] probes. *)
Definition at_cursor (listen a b c : string) (i : Z) (t : nat) : World :=
  {| lb := {| port := listen; roundRobinIndex := i;
              servers := three_servers a b c |};
     clock := t |}.

(** A network on which only the third of them is down. *)
Definition c_down_net : Network :=
  fun _ a =>
    if (a =? "http://c.example")%string
    then GetErr ConnectionFailed
    else GetResp 200.

End RoundRobin.

(** ** Weighted round robin *)

Module WeightedRoundRobin.

Record simpleServer : Type := { addr : string; weight : Z }.

Record loadBalancer : Type :=
  { port : string;
    currentWeight : Z;
    currentServer : Z;
    servers : list simpleServer;
    weightCounters : list Z }.

Definition newSimpleServer (a : string) (w : Z) : simpleServer :=
  {| addr := a; weight := w |}.

Definition Weight (s : simpleServer) : Z := weight s.

Definition newLoadBalancer (port : string) (servers : list simpleServer)
  : loadBalancer :=
  {| port := port;
     currentWeight := 0;
     currentServer := 0;
     servers := servers;
     weightCounters := map Weight servers |}.

Definition maxWeight (servers : list simpleServer) : Z :=
  fold_left (fun max server => if Weight server >? max then Weight server else max)
    servers 0.

Record World : Type := { lb : loadBalancer; clock : nat }.

Section Run.
Variable net : Network.

Definition IsAlive (s : simpleServer) : M World bool :=
  fun w =>
    Ret (probe_alive (net (clock w) (addr s)),
         {| lb := lb w; clock := S (clock w) |}).

Definition get_lb : M World loadBalancer := fun w => Ret (lb w, w).

Definition set_currentServer (i : Z) : M World unit :=
  fun w =>
    Ret (tt, {| lb := {| port := port (lb w);
                         currentWeight := currentWeight (lb w);
                         currentServer := i;
                         servers := servers (lb w);
                         weightCounters := weightCounters (lb w) |};
                clock := clock w |}).

Definition set_currentWeight (x : Z) : M World unit :=
  fun w =>
    Ret (tt, {| lb := {| port := port (lb w);
                         currentWeight := x;
                         currentServer := currentServer (lb w);
                         servers := servers (lb w);
                         weightCounters := weightCounters (lb w) |};
                clock := clock w |}).

(** The block run when the cursor wraps to position 0; [true] when it
    returns nil. *)
Definition next_weight : M World bool :=
  l <- get_lb ;;
  _ <- set_currentWeight (wrap_int (currentWeight l - 1)) ;;
  l <- get_lb ;;
  if currentWeight l <=? 0 then
    _ <- set_currentWeight (maxWeight (servers l)) ;;
    l <- get_lb ;;
    if currentWeight l =? 0
    then ret true                          (* "All servers are down" *)
    else ret false
  else ret false.

(** The [for] loop of [pickServer]. *)
Fixpoint pick_loop (fuel : nat) : M World (option nat) :=
  match fuel with
  | O => out_of_fuel
  | S fuel' =>
      l <- get_lb ;;
      next <- go_rem (wrap_int (currentServer l + 1)) (len (servers l)) ;;
      _ <- set_currentServer next ;;
      l <- get_lb ;;
      down <- (if currentServer l =? 0 then next_weight else ret false) ;;
      if down then ret None
      else
        l <- get_lb ;;
        counter <- index (weightCounters l) (currentServer l) ;;
        if counter >=? currentWeight l then
          server <- index (servers l) (currentServer l) ;;
          alive <- IsAlive server ;;
          if alive then ret (Some (Z.to_nat (currentServer l)))
          else pick_loop fuel'
        else pick_loop fuel'
  end.

Definition pickServer (fuel : nat) : M World (option nat) := pick_loop fuel.

Definition Serve (target : nat) : M World unit := ret tt.

Definition serveProxy (fuel : nat) : M World Response :=
  targetServer <- pickServer fuel ;;
  match targetServer with
  | None => ret (HttpError StatusServiceUnavailable)
  | Some target => _ <- Serve target ;; ret (Proxied target)
  end.

(** [n] calls of [pickServer] in a row, with the backends they returned. *)
Fixpoint picks (fuel : nat) (n : nat) : M World (list (option nat)) :=
  match n with
  | O => ret []
  | S n' =>
      r <- pickServer fuel ;;
      rs <- picks fuel n' ;;
      ret (r :: rs)
  end.

End Run.

(** Three backends with the weights 5, 3 and 1 of [main]. *)
Definition weighted_servers (a b c : string) : list simpleServer :=
  [newSimpleServer a 5; newSimpleServer b 3; newSimpleServer c 1].

(** The balancer over them with its cursor and current weight as given,
    after [t] probes. *)
Definition at_state (listen a b c : string) (cs cw : Z) (t : nat) : World :=
  {| lb := {| port := listen;
              currentWeight := cw;
              currentServer := cs;
              servers := weighted_servers a b c;
              weightCounters := [5; 3; 1] |};
     clock := t |}.

(** The twelve (cursor, current weight) pairs the balancer goes through when
    every probe succeeds: three on the way in, then a cycle of nine. *)
Definition phases : list (Z * Z) :=
  [ (0, 0); (1, 0); (2, 0);
    (0, 5); (0, 4); (0, 3); (1, 3); (0, 2); (1, 2); (0, 1); (1, 1); (2, 1) ].

Definition phase (j : nat) : Z * Z := nth j phases (0, 0).

(** Phase reached by one call made in phase [j]. *)
Definition next_phase (j : nat) : nat :=
  if (j <? 11)%nat then S j else 3%nat.

(** Backend returned by a call made in phase [j]: the position of the
    cursor of the phase it leads to. *)
Definition returned_in (j : nat) : option nat :=
  Some (Z.to_nat (fst (phase (next_phase j)))).

(** What [n] calls in a row return, from phase [j]. *)
Fixpoint returned_from (j : nat) (n : nat) : list (option nat) :=
  match n with
  | O => []
  | S n' => returned_in j :: returned_from (next_phase j) n'
  end.

Definition is_backend (p : nat) (r : option nat) : bool :=
  match r with
  | Some q => (q =? p)%nat
  | None => false
  end.

(** Number of calls of [rs] that returned backend [p]. *)
Fixpoint count_returned (p : nat) (rs : list (option nat)) : nat :=
  match rs with
  | [] => 0%nat
  | r :: rs' =>
      if is_backend p r then S (count_returned p rs') else count_returned p rs'
  end.

(** Longest stretch of consecutive calls of [rs] that returned backend [p];
    [cur] is the length of the stretch under way. *)
Fixpoint longest_run_from (p : nat) (rs : list (option nat)) (cur best : nat)
  : nat :=
  match rs with
  | [] => Nat.max cur best
  | r :: rs' =>
      if is_backend p r
      then longest_run_from p rs' (S cur) best
      else longest_run_from p rs' 0%nat (Nat.max cur best)
  end.

Definition longest_run (p : nat) (rs : list (option nat)) : nat :=
  longest_run_from p rs 0%nat 0%nat.

Definition up_net : Network := fun _ _ => GetResp 200.

Definition down_net : Network := fun _ _ => GetErr ConnectionFailed.


(** The balancer of [main]. *)
Definition main_lb : loadBalancer :=
  newLoadBalancer "8000"
    (weighted_servers "https://www.facebook.com" "http://www.bing.com"
       "http://www.duckduckgo.com").

End WeightedRoundRobin.

(** ** Least connections (leastConnection.go) *)

Module LeastConnection.

Record simpleServer : Type := { addr : string; connections : Z }.

Record loadBalancer : Type := { port : string; servers : list simpleServer }.

(** The fields left out of the composite literal are zero. *)
Definition newSimpleServer (a : string) : simpleServer :=
  {| addr := a; connections := 0 |}.

Definition newLoadBalancer (port : string) (servers : list simpleServer)
  : loadBalancer :=
  {| port := port; servers := servers |}.

(** *** Method bodies, on the receiver *)

Definition IncrementConnection (s : simpleServer) : simpleServer :=
  {| addr := addr s; connections := wrap_int (connections s + 1) |}.

Definition DecrementConnection (s : simpleServer) : simpleServer :=
  {| addr := addr s; connections := wrap_int (connections s - 1) |}.

Definition Connections (s : simpleServer) : Z := connections s.

(** How [s.proxy.ServeHTTP] ended: it returned, or it aborted the handler
    with a panic after a transport failure. *)
Inductive ForwardOutcome : Type := Forwarded | TransportFailed.

(** The two atomic steps of one [Serve] call on a backend: the entry
    ([s.IncrementConnection()]) and the exit, where the deferred
    [s.DecrementConnection()] runs whatever the outcome of the forward. *)
Inductive ServeStep : Type := Enter | Leave (o : ForwardOutcome).

Definition serve_step (s : simpleServer) (e : ServeStep) : simpleServer :=
  match e with
  | Enter => IncrementConnection s
  | Leave Forwarded => DecrementConnection s
  | Leave TransportFailed => DecrementConnection s
  end.

(** The steps of concurrent [Serve] calls on one backend, in the order the
    mutex serialises them. *)
Definition run (tr : list ServeStep) (s : simpleServer) : simpleServer :=
  fold_left serve_step tr s.

(** Number of calls still forwarding after [tr], starting from [d] of them;
    [None] when some call would leave without having entered. *)
Fixpoint in_flight (tr : list ServeStep) (d : nat) : option nat :=
  match tr with
  | [] => Some d
  | Enter :: tr' => in_flight tr' (S d)
  | Leave _ :: tr' =>
      match d with
      | O => None
      | S d' => in_flight tr' d'
      end
  end.

(** Every call of the sequence has entered and left. *)
Definition completed (tr : list ServeStep) : Prop := in_flight tr 0 = Some 0%nat.

(** *** The balancer *)

Record World : Type := { lb : loadBalancer; clock : nat }.

(** [int(^uint(0) >> 1)] *)
Definition max_int_sentinel : Z := wrap_int (Z.shiftr (2 ^ 64 - 1) 1).

Section Run.
Variable net : Network.

Definition get_lb : M World loadBalancer := fun w => Ret (lb w, w).

(** Dereference of the backend at position [p]. *)
Definition server_at (p : nat) : M World simpleServer :=
  fun w =>
    match servers (lb w) !! p with
    | Some s => Ret (s, w)
    | None => Panic
    end.

(** A method that writes to its receiver. *)
Definition update_server (p : nat) (f : simpleServer -> simpleServer)
  : M World unit :=
  fun w =>
    match servers (lb w) !! p with
    | Some s =>
        Ret (tt, {| lb := {| port := port (lb w);
                             servers := <[p := f s]> (servers (lb w)) |};
                    clock := clock w |})
    | None => Panic
    end.

Definition http_get (a : string) : M World GetResult :=
  fun w => Ret (net (clock w) a, {| lb := lb w; clock := S (clock w) |}).

Definition IsAlive (p : nat) : M World bool :=
  s <- server_at p ;;
  r <- http_get (addr s) ;;
  ret (probe_alive r).

Definition Connections_of (p : nat) : M World Z :=
  s <- server_at p ;;
  ret (Connections s).

Definition Serve (p : nat) (o : ForwardOutcome) : M World ForwardOutcome :=
  _ <- update_server p IncrementConnection ;;
  (* s.proxy.ServeHTTP(rw, req) ends with outcome o *)
  _ <- update_server p DecrementConnection ;;
  ret o.

(** [for _, server := range lb.servers { ... }] *)
Fixpoint scan (todo : list nat) (selectedServer : option nat)
    (minConnections : Z) : M World (option nat) :=
  match todo with
  | [] => ret selectedServer
  | server :: todo' =>
      alive <- IsAlive server ;;
      if alive then
        connections <- Connections_of server ;;
        if connections <? minConnections
        then scan todo' (Some server) connections
        else scan todo' selectedServer minConnections
      else scan todo' selectedServer minConnections
  end.

Definition pickServer : M World (option nat) :=
  l <- get_lb ;;
  scan (seq 0 (length (servers l))) None max_int_sentinel.

Definition serveProxy (o : ForwardOutcome) : M World Response :=
  targetServer <- pickServer ;;
  match targetServer with
  | None => ret (HttpError StatusServiceUnavailable)
  | Some target => _ <- Serve target o ;; ret (Proxied target)
  end.

(** Answer to the probe of the backend at position [i] during a scan that
    starts at time [t]: backends are probed once each, in pool order. *)
Definition alive_in_scan (t : nat) (l : loadBalancer) (i : nat) : bool :=
  match servers l !! i with
  | Some s => probe_alive (net (t + i)%nat (addr s))
  | None => false
  end.

End Run.

(** Count read from the backend at position [i]. *)
Definition count_at (l : loadBalancer) (i : nat) : Z :=
  match servers l !! i with
  | Some s => Connections s
  | None => 0
  end.

(** What the loop of [pickServer] has established once the first [k]
    backends are scanned, in a scan started at time [t0]: nothing is selected
    and every alive backend seen holds at least the initial bound, or the
    selected backend is the first alive one with the least count seen. *)
Definition scanned (net : Network) (t0 : nat) (l : loadBalancer)
    (k : nat) (sel : option nat) (min : Z) : Prop :=
  match sel with
  | None =>
      min = max_int /\
      forall j, (j < k)%nat -> alive_in_scan net t0 l j = true ->
                max_int <= count_at l j
  | Some q =>
      (q < k)%nat /\ alive_in_scan net t0 l q = true /\ count_at l q = min /\
      (forall j, (j < k)%nat -> alive_in_scan net t0 l j = true ->
                 min <= count_at l j) /\
      (forall j, (j < q)%nat -> alive_in_scan net t0 l j = true ->
                 min < count_at l j)
  end.

Definition up_net : Network := fun _ _ => GetResp 200.

Definition busy_lb : loadBalancer :=
  newLoadBalancer "8000"
    [{| addr := "http://a.example"; connections := 4 |};
     {| addr := "http://b.example"; connections := 2 |};
     {| addr := "http://c.example"; connections := 2 |}].

End LeastConnection.

(** ** Least response time *)

Module LeastResponseTime.

Record simpleServer : Type :=
  { addr : string;
    connections : Z;
    totalResponseTime : Z;
    requests : Z }.

Record loadBalancer : Type := { port : string; servers : list simpleServer }.

Definition newSimpleServer (a : string) : simpleServer :=
  {| addr := a; connections := 0; totalResponseTime := 0; requests := 0 |}.

Definition newLoadBalancer (port : string) (servers : list simpleServer)
  : loadBalancer :=
  {| port := port; servers := servers |}.

(** *** Method bodies, on the receiver *)

Definition IncrementConnection (s : simpleServer) : simpleServer :=
  {| addr := addr s;
     connections := wrap_int (connections s + 1);
     totalResponseTime := totalResponseTime s;
     requests := requests s |}.

Definition DecrementConnection (s : simpleServer) : simpleServer :=
  {| addr := addr s;
     connections := wrap_int (connections s - 1);
     totalResponseTime := totalResponseTime s;
     requests := requests s |}.

Definition Connections (s : simpleServer) : Z := connections s.

Definition UpdateResponseTime (duration : Z) (s : simpleServer) : simpleServer :=
  {| addr := addr s;
     connections := connections s;
     totalResponseTime := wrap_int (totalResponseTime s + duration);
     requests := wrap_int (requests s + 1) |}.

(** [/] truncates towards zero. *)
Definition AverageResponseTime (s : simpleServer) : Z :=
  if requests s =? 0 then 0
  else wrap_int (Z.quot (totalResponseTime s) (requests s)).

Inductive ForwardOutcome : Type := Forwarded | TransportFailed.

Record World : Type := { lb : loadBalancer; clock : nat }.

(** [time.Duration(^uint64(0) >> 1)] *)
Definition max_duration_sentinel : Z := wrap_int (Z.shiftr (2 ^ 64 - 1) 1).

Section Run.
Variable net : Network.

Definition get_lb : M World loadBalancer := fun w => Ret (lb w, w).

Definition server_at (p : nat) : M World simpleServer :=
  fun w =>
    match servers (lb w) !! p with
    | Some s => Ret (s, w)
    | None => Panic
    end.

Definition update_server (p : nat) (f : simpleServer -> simpleServer)
  : M World unit :=
  fun w =>
    match servers (lb w) !! p with
    | Some s =>
        Ret (tt, {| lb := {| port := port (lb w);
                             servers := <[p := f s]> (servers (lb w)) |};
                    clock := clock w |})
    | None => Panic
    end.

Definition http_get (a : string) : M World GetResult :=
  fun w => Ret (net (clock w) a, {| lb := lb w; clock := S (clock w) |}).

Definition IsAlive (p : nat) : M World bool :=
  s <- server_at p ;;
  r <- http_get (addr s) ;;
  ret (probe_alive r).

Definition AverageResponseTime_of (p : nat) : M World Z :=
  s <- server_at p ;;
  ret (AverageResponseTime s).

(** [duration] is what [time.Since(start)] reads once the forward returns;
    a forward that aborts skips the update, the deferred decrement runs. *)
Definition Serve (p : nat) (o : ForwardOutcome) (duration : Z)
  : M World ForwardOutcome :=
  _ <- update_server p IncrementConnection ;;
  _ <- match o with
       | Forwarded => update_server p (UpdateResponseTime duration)
       | TransportFailed => ret tt
       end ;;
  _ <- update_server p DecrementConnection ;;
  ret o.

Fixpoint scan (todo : list nat) (selectedServer : option nat)
    (minResponseTime : Z) : M World (option nat) :=
  match todo with
  | [] => ret selectedServer
  | server :: todo' =>
      alive <- IsAlive server ;;
      if alive then
        responseTime <- AverageResponseTime_of server ;;
        if responseTime <? minResponseTime
        then scan todo' (Some server) responseTime
        else scan todo' selectedServer minResponseTime
      else scan todo' selectedServer minResponseTime
  end.

Definition pickServer : M World (option nat) :=
  l <- get_lb ;;
  scan (seq 0 (length (servers l))) None max_duration_sentinel.

Definition serveProxy (o : ForwardOutcome) (duration : Z) : M World Response :=
  targetServer <- pickServer ;;
  match targetServer with
  | None => ret (HttpError StatusServiceUnavailable)
  | Some target => _ <- Serve target o duration ;; ret (Proxied target)
  end.

Definition alive_in_scan (t : nat) (l : loadBalancer) (i : nat) : bool :=
  match servers l !! i with
  | Some s => probe_alive (net (t + i)%nat (addr s))
  | None => false
  end.

End Run.

(** Average read from the backend at position [i]. *)
Definition average_at (l : loadBalancer) (i : nat) : Z :=
  match servers l !! i with
  | Some s => AverageResponseTime s
  | None => 0
  end.

(** What the loop of [pickServer] has established once the first [k]
    backends are scanned, in a scan started at time [t0]. *)
Definition scanned (net : Network) (t0 : nat) (l : loadBalancer)
    (k : nat) (sel : option nat) (min : Z) : Prop :=
  match sel with
  | None =>
      min = max_int /\
      forall j, (j < k)%nat -> alive_in_scan net t0 l j = true ->
                max_int <= average_at l j
  | Some q =>
      (q < k)%nat /\ alive_in_scan net t0 l q = true /\ average_at l q = min /\
      (forall j, (j < k)%nat -> alive_in_scan net t0 l j = true ->
                 min <= average_at l j) /\
      (forall j, (j < q)%nat -> alive_in_scan net t0 l j = true ->
                 min < average_at l j)
  end.

Definition up_net : Network := fun _ _ => GetResp 200.

Definition warm_lb : loadBalancer :=
  newLoadBalancer "8000"
    [ {| addr := "http://a.example"; connections := 0;
         totalResponseTime := 900; requests := 3 |};
      newSimpleServer "http://b.example";
      {| addr := "http://c.example"; connections := 1;
         totalResponseTime := 2; requests := 5 |} ].

End LeastResponseTime.

(** ** Views of a scan, used to state what the picks return *)

(** Round robin: answer to the [k]-th probe of a call of [pickServer] made
    at time [t] with the cursor of [l]; it goes to the backend [k] places
    after the cursor, cyclically. *)
Definition rr_probe (net : Network) (l : RoundRobin.loadBalancer) (t : nat)
    (k : nat) : bool :=
  let n := len (RoundRobin.servers l) in
  match RoundRobin.servers l
        !! Z.to_nat ((RoundRobin.roundRobinIndex l + Z.of_nat k) mod n) with
  | Some s => probe_alive (net (t + k)%nat (RoundRobin.addr s))
  | None => false
  end.

(** The balancer [l] with its cursor moved to [i]. *)
Definition rr_with_cursor (l : RoundRobin.loadBalancer) (i : Z)
  : RoundRobin.loadBalancer :=
  {| RoundRobin.port := RoundRobin.port l;
     RoundRobin.roundRobinIndex := i;
     RoundRobin.servers := RoundRobin.servers l |}.

(** Source-IP hash: answer to the [k]-th probe of a call of [pickServer] for
    the client address [ip] made at time [t]; it goes to the backend [k]
    places after the hashed position, cyclically. *)
Definition sih_probe (net : Network) (l : SourceIPHash.loadBalancer)
    (ip : string) (t : nat) (k : nat) : bool :=
  let n := len (SourceIPHash.servers l) in
  match SourceIPHash.servers l !! Z.to_nat ((hashIP ip + Z.of_nat k) mod n) with
  | Some s => probe_alive (net (t + k)%nat (SourceIPHash.addr s))
  | None => false
  end.

(** Weighted round robin: the states of the balancer that
    [newLoadBalancer] builds and [pickServer] keeps: the cursor is a
    position of the pool, the pool fits an [int], and the counters are the
    weights of the backends. *)
Definition wrr_wf (l : WeightedRoundRobin.loadBalancer) : Prop :=
  0 <= WeightedRoundRobin.currentServer l
    < len (WeightedRoundRobin.servers l) /\
  len (WeightedRoundRobin.servers l) <= max_int /\
  WeightedRoundRobin.weightCounters l
  = map WeightedRoundRobin.Weight (WeightedRoundRobin.servers l).

(** Least response time: the backend after the forwards whose durations
    are [ds] have been recorded, in that order. *)
Definition lrt_record (ds : list Z) (s : LeastResponseTime.simpleServer)
  : LeastResponseTime.simpleServer :=
  fold_left (fun s d => LeastResponseTime.UpdateResponseTime d s) ds s.

Definition sum_durations (ds : list Z) : Z := fold_right Z.add 0 ds.

(** Weighted round robin: the state of the balancer over [servers] with the
    cursor at [cs] and the current weight [cw], after [t] probes. *)
Definition wrr_state (listen : string)
    (servers : list WeightedRoundRobin.simpleServer) (cs cw : Z) (t : nat)
  : WeightedRoundRobin.World :=
  {| WeightedRoundRobin.lb :=
       {| WeightedRoundRobin.port := listen;
          WeightedRoundRobin.currentWeight := cw;
          WeightedRoundRobin.currentServer := cs;
          WeightedRoundRobin.servers := servers;
          WeightedRoundRobin.weightCounters :=
            map WeightedRoundRobin.Weight servers |};
     WeightedRoundRobin.clock := t |}.

(** The backend at position [i] passes the weight test at level [c]. *)
Definition wrr_eligible (servers : list WeightedRoundRobin.simpleServer)
    (c : Z) (i : nat) : bool :=
  match servers !! i with
  | Some s => c <=? WeightedRoundRobin.weight s
  | None => false
  end.

(** The positions among [from], ..., [from + len - 1] that pass the test at
    level [c], in pool order. *)
Definition wrr_level (servers : list WeightedRoundRobin.simpleServer)
    (c : Z) (from len : nat) : list nat :=
  List.filter (wrr_eligible servers c) (seq from len).

(** The levels [k], [k - 1], ..., 1, one after the other. *)
Fixpoint wrr_levels_down (servers : list WeightedRoundRobin.simpleServer)
    (k : nat) : list nat :=
  match k with
  | O => []
  | S k' =>
      wrr_level servers (Z.of_nat k) 0 (length servers)
      ++ wrr_levels_down servers k'
  end.

(** One full cycle of the weighted rotation: the levels from the largest
    weight down to 1. *)
Definition wrr_cycle (servers : list WeightedRoundRobin.simpleServer)
  : list nat :=
  wrr_levels_down servers (Z.to_nat (WeightedRoundRobin.maxWeight servers)).

(** Level that follows level [c] when the cursor wraps. *)
Definition wrr_next_level (servers : list WeightedRoundRobin.simpleServer)
    (c : Z) : Z :=
  if c - 1 <=? 0 then WeightedRoundRobin.maxWeight servers else c - 1.

(** The (cursor, level) pair that one turn of the loop of the weighted
    [pickServer] moves to from [s]: the cursor advances, and the level moves
    on when the cursor wraps to the head of the pool. *)
Definition wrr_after (servers : list WeightedRoundRobin.simpleServer)
    (s : nat * Z) : nat * Z :=
  if (S (fst s) <? length servers)%nat then (S (fst s), snd s)
  else (O, wrr_next_level servers (snd s)).

(** The pairs the loop goes through in [k] turns from [s]. *)
Fixpoint wrr_path (servers : list WeightedRoundRobin.simpleServer)
    (s : nat * Z) (k : nat) : list (nat * Z) :=
  match k with
  | O => []
  | S k' => wrr_after servers s :: wrr_path servers (wrr_after servers s) k'
  end.

(** The pair reached after [k] turns from [s]. *)
Fixpoint wrr_reach (servers : list WeightedRoundRobin.simpleServer)
    (s : nat * Z) (k : nat) : nat * Z :=
  match k with
  | O => s
  | S k' => wrr_reach servers (wrr_after servers s) k'
  end.

(** The backend under the cursor passes the weight test of the level. *)
Definition wrr_passes (servers : list WeightedRoundRobin.simpleServer)
    (s : nat * Z) : bool :=
  wrr_eligible servers (snd s) (fst s).

(** The pairs among the next [k] at which the loop returns, when every
    probe succeeds. *)
Definition wrr_served (servers : list WeightedRoundRobin.simpleServer)
    (s : nat * Z) (k : nat) : list (nat * Z) :=
  List.filter (wrr_passes servers) (wrr_path servers s k).

(** ** The file-backed record store (golang-db/main.go)

    The operating system, [path/filepath] and [encoding/json] are inputs:
    the answer to each call of the [os] and [ioutil] packages is a function
    of the number of calls made before it and of its arguments, and every
    call is logged. A [*sync.Mutex] is the number of its allocation. Locking
    follows the convention of the balancers: the body run under a mutex is
    one atomic step. The messages sent to the logger are left out. *)

Module DB.

Inductive error : Type :=
| Errorf (msg : string)     (* built by [fmt.Errorf] *)
| ErrNotExist               (* an error for which [os.IsNotExist] holds *)
| ErrOther (msg : string).  (* any other error of [os], [ioutil] or [json] *)

(** [os.IsNotExist(err)] on the error part of a result. *)
Definition IsNotExist {A : Type} (r : A + error) : bool :=
  match r with
  | inr ErrNotExist => true
  | _ => false
  end.

(** What [fi.Mode()] says: [IsDir], [IsRegular], or neither. *)
Inductive FileKind : Type := Directory | RegularFile | Special.

Record FileInfo : Type := { Name : string; kind : FileKind }.

Definition IsDir (fi : FileInfo) : bool :=
  match kind fi with Directory => true | _ => false end.

Definition IsRegular (fi : FileInfo) : bool :=
  match kind fi with RegularFile => true | _ => false end.

Inductive Call : Type :=
| Stat (path : string)
| MkdirAll (path : string) (perm : Z)
| WriteFile (path : string) (data : list Z) (perm : Z)
| Rename (oldpath newpath : string)
| ReadFile (path : string)
| ReadDir (path : string)
| RemoveAll (path : string).

(** The answers of the operating system; the first argument is the number
    of calls made so far. *)
Record OS : Type :=
  { os_Stat : nat -> string -> FileInfo + error;
    os_MkdirAll : nat -> string -> Z -> option error;
    os_WriteFile : nat -> string -> list Z -> Z -> option error;
    os_Rename : nat -> string -> string -> option error;
    os_ReadFile : nat -> string -> list Z + error;
    os_ReadDir : nat -> string -> list FileInfo + error;
    os_RemoveAll : nat -> string -> option error }.

Record Driver : Type := { dir : string }.

(** The mutexes of the driver, the number of mutexes allocated so far, and
    the calls made to the operating system, oldest first. *)
Record World : Type :=
  { mutexes : gmap string nat;
    allocated : nat;
    calls : list Call }.

Definition logged (w : World) (c : Call) : World :=
  {| mutexes := mutexes w; allocated := allocated w; calls := calls w ++ [c] |}.

Definition line_feed : string := String (ascii_of_nat 10) EmptyString.

Section Store.
Variable os : OS.
(** [filepath.Clean] and [filepath.Join]. *)
Variable Clean : string -> string.
Variable Join : list string -> string.
(** The records, with [json.MarshalIndent(v, "", "\t")] and
    [json.Unmarshal]. *)
Variable V : Type.
Variable MarshalIndent : V -> list Z + error.
Variable Unmarshal : list Z -> V + error.

Definition do_Stat (path : string) : M World (FileInfo + error) :=
  fun w => Ret (os_Stat os (length (calls w)) path, logged w (Stat path)).

Definition do_MkdirAll (path : string) (perm : Z) : M World (option error) :=
  fun w => Ret (os_MkdirAll os (length (calls w)) path perm,
                logged w (MkdirAll path perm)).

Definition do_WriteFile (path : string) (data : list Z) (perm : Z)
  : M World (option error) :=
  fun w => Ret (os_WriteFile os (length (calls w)) path data perm,
                logged w (WriteFile path data perm)).

Definition do_Rename (oldpath newpath : string) : M World (option error) :=
  fun w => Ret (os_Rename os (length (calls w)) oldpath newpath,
                logged w (Rename oldpath newpath)).

Definition do_ReadFile (path : string) : M World (list Z + error) :=
  fun w => Ret (os_ReadFile os (length (calls w)) path, logged w (ReadFile path)).

Definition do_ReadDir (path : string) : M World (list FileInfo + error) :=
  fun w => Ret (os_ReadDir os (length (calls w)) path, logged w (ReadDir path)).

Definition do_RemoveAll (path : string) : M World (option error) :=
  fun w => Ret (os_RemoveAll os (length (calls w)) path,
                logged w (RemoveAll path)).

(** [New]: the driver, and the error of [os.MkdirAll] when the directory had
    to be created. *)
Definition New (d : string) : M World (Driver * option error) :=
  let d := Clean d in
  let driver := {| dir := d |} in
  fun w =>
    (r <- do_Stat d ;;
     match r with
     | inl _ => ret (driver, None)
     | inr _ => err <- do_MkdirAll d 493 ;; ret (driver, err)
     end)
      {| mutexes := ∅; allocated := allocated w; calls := calls w |}.

Definition getOrCreateMutex (collection : string) : M World nat :=
  fun w =>
    match mutexes w !! collection with
    | Some m => Ret (m, w)
    | None =>
        let m := allocated w in
        Ret (m, {| mutexes := <[collection := m]> (mutexes w);
                   allocated := S (allocated w);
                   calls := calls w |})
    end.

Definition stat (path : string) : M World (FileInfo + error) :=
  r <- do_Stat path ;;
  if IsNotExist r then do_Stat (path +:+ ".json") else ret r.

Definition Insert (d : Driver) (collection resource : string) (v : V)
  : M World (option error) :=
  if (collection =? "")%string then
    ret (Some (Errorf "Missing Collection - no place to save record"))
  else if (resource =? "")%string then
    ret (Some (Errorf "Missing Resource - unable to save record (no name)"))
  else
    mutex <- getOrCreateMutex collection ;;
    let dir := Join [dir d; collection] in
    let finalPath := Join [dir; resource +:+ ".json"] in
    let tempPath := finalPath +:+ ".tmp" in
    err <- do_MkdirAll dir 493 ;;
    match err with
    | Some e => ret (Some e)
    | None =>
        match MarshalIndent v with
        | inr e => ret (Some e)
        | inl b =>
            let b := b ++ [10] in
            err <- do_WriteFile tempPath b 420 ;;
            match err with
            | Some e => ret (Some e)
            | None => do_Rename tempPath finalPath
            end
        end
    end.

Definition Read (d : Driver) (collection resource : string) : M World (V + error) :=
  if (collection =? "")%string then
    ret (inr (Errorf "Missing Collection - unable to read records"))
  else if (resource =? "")%string then
    ret (inr (Errorf "Missing Resource - unable to read record (no name)"))
  else
    let record := Join [dir d; collection; resource +:+ ".json"] in
    r <- stat record ;;
    match r with
    | inr e => ret (inr e)
    | inl _ =>
        b <- do_ReadFile record ;;
        match b with
        | inr e => ret (inr e)
        | inl b => ret (Unmarshal b)
        end
    end.

(** The loop of [ReadAll] over the entries of the directory. *)
Fixpoint read_files (dir : string) (files : list FileInfo)
    (records : list (list Z)) : M World (list (list Z) + error) :=
  match files with
  | [] => ret (inl records)
  | file :: files' =>
      if IsDir file then read_files dir files' records
      else
        b <- do_ReadFile (Join [dir; Name file]) ;;
        match b with
        | inr e => ret (inr e)
        | inl b => read_files dir files' (records ++ [b])
        end
  end.

Definition ReadAll (d : Driver) (collection : string)
  : M World (list (list Z) + error) :=
  if (collection =? "")%string then
    ret (inr (Errorf "Missing Collection - unable to read records"))
  else
    let dir := Join [dir d; collection] in
    r <- stat dir ;;
    match r with
    | inr e => ret (inr e)
    | inl _ =>
        listing <- do_ReadDir dir ;;
        let files := match listing with inl fs => fs | inr _ => [] end in
        read_files dir files []
    end.

Definition Delete (d : Driver) (collection resource : string)
  : M World (option error) :=
  let path := Join [collection; resource] in
  mutex <- getOrCreateMutex collection ;;
  let dir := Join [dir d; path] in
  r <- stat dir ;;
  match r with
  | inr _ =>
      ret (Some (Errorf ("unable to find file or directory named "
                         +:+ path +:+ " " +:+ line_feed)))
  | inl fi =>
      if IsDir fi then do_RemoveAll dir
      else if IsRegular fi then do_RemoveAll (dir +:+ ".json")
      else ret None
  end.

End Store.

(** Calls that change nothing on disk. *)
Definition reads_only (c : Call) : bool :=
  match c with
  | Stat _ | ReadFile _ | ReadDir _ => true
  | _ => false
  end.

(** No two collections share a mutex, and every mutex in the map has been
    allocated. *)
Definition own_mutexes (w : World) : Prop :=
  (forall c m, mutexes w !! c = Some m -> (m < allocated w)%nat) /\
  (forall c1 c2 m, mutexes w !! c1 = Some m -> mutexes w !! c2 = Some m ->
                   c1 = c2).

Definition empty_world : World :=
  {| mutexes := ∅; allocated := 0; calls := [] |}.

(** A path join good enough for plain names: the elements that are not
    empty, separated by slashes. *)
Fixpoint slash_join (elems : list string) : string :=
  match elems with
  | [] => ""
  | e :: rest =>
      if (e =? "")%string then slash_join rest
      else if (slash_join rest =? "")%string then e
      else e +:+ "/" +:+ slash_join rest
  end.

(** An operating system on which every call succeeds and every path is a
    missing one but for the directory [db/users] and the regular file
    [db/users/ann.json]. *)
Definition quiet_os : OS :=
  {| os_Stat := fun _ path =>
       if (path =? "db/users")%string
       then inl {| Name := "users"; kind := Directory |}
       else if (path =? "db/users/ann.json")%string
       then inl {| Name := "ann.json"; kind := RegularFile |}
       else inr ErrNotExist;
     os_MkdirAll := fun _ _ _ => None;
     os_WriteFile := fun _ _ _ _ => None;
     os_Rename := fun _ _ _ => None;
     os_ReadFile := fun _ _ => inl [123; 125; 10];
     os_ReadDir := fun _ _ =>
       inl [ {| Name := "ann.json"; kind := RegularFile |};
             {| Name := "old"; kind := Directory |};
             {| Name := "bob.json"; kind := RegularFile |} ];
     os_RemoveAll := fun _ _ => None |}.

End DB.

(** The entries of a listing that [ReadAll] reads: those that are not
    directories. *)
Definition db_plain_files (files : list DB.FileInfo) : list DB.FileInfo :=
  List.filter (fun f => negb (DB.IsDir f)) files.

(** * Properties *)

(** ** Test vectors of the digest (RFC 1321) *)

Example hashIP_empty : hashIP "" = 3558706393.
Proof. vm_compute. reflexivity. Qed.

Example hashIP_abc : hashIP "abc" = 2416005272.
Proof. vm_compute. reflexivity. Qed.

Example hashIP_remote_addr : hashIP "10.0.0.1:5000" = 4015479709.
Proof. vm_compute. reflexivity. Qed.

Example md5_two_blocks :
  md5.Sum (repeat 120 70)
  = [125; 86; 192; 248; 63; 209; 227; 32; 214; 14; 162; 241; 61; 253; 238; 221].
Proof. vm_compute. reflexivity. Qed.

(** ** Machine integers *)

Lemma wrap_int_id (z : Z) : in_int z -> wrap_int z = z.
Proof.
  unfold in_int, wrap_int, min_int, max_int. intros Hz.
  rewrite Z.mod_small; lia.
Qed.

Lemma wrap_int_range (z : Z) : in_int (wrap_int z).
Proof.
  unfold in_int, wrap_int, min_int, max_int.
  pose proof (Z.mod_pos_bound (z + 2 ^ 63) (2 ^ 64) ltac:(lia)). lia.
Qed.

(** Wrapping commutes with adding a constant to an already wrapped value. *)
Lemma wrap_int_add (x k : Z) : wrap_int (wrap_int x + k) = wrap_int (x + k).
Proof.
  unfold wrap_int.
  replace ((x + 2 ^ 63) mod 2 ^ 64 - 2 ^ 63 + k + 2 ^ 63)
    with ((x + 2 ^ 63) mod 2 ^ 64 + k) by lia.
  replace (x + k + 2 ^ 63) with ((x + 2 ^ 63) + k) by lia.
  rewrite Zplus_mod_idemp_l. reflexivity.
Qed.

Lemma lor_range (n a b : Z) :
  0 <= a < 2 ^ n -> 0 <= b < 2 ^ n -> 0 <= Z.lor a b < 2 ^ n.
Proof.
  intros Ha Hb.
  assert (Hnn : 0 <= Z.lor a b) by (apply Z.lor_nonneg; lia).
  split; [exact Hnn|].
  destruct (Z.eq_dec (Z.lor a b) 0) as [->|Hne]; [lia|].
  assert (Hn : 0 < n).
  { destruct (Z_lt_le_dec 0 n) as [|Hle]; [assumption|].
    exfalso. apply Hne.
    assert (2 ^ n <= 1).
    { destruct (Z.eq_dec n 0) as [->|]; [simpl; lia|].
      rewrite Z.pow_neg_r; lia. }
    replace a with 0 by lia. replace b with 0 by lia. reflexivity. }
  apply Z.log2_lt_pow2; [lia|].
  rewrite Z.log2_lor by lia.
  apply Z.max_lub_lt.
  - destruct (Z.eq_dec a 0) as [->|]; [simpl; lia|].
    apply Z.log2_lt_pow2; lia.
  - destruct (Z.eq_dec b 0) as [->|]; [simpl; lia|].
    apply Z.log2_lt_pow2; lia.
Qed.

Lemma byte_shiftl_range (b k : Z) :
  0 <= b < 256 -> 0 <= k <= 24 -> 0 <= Z.shiftl b k < 2 ^ 32.
Proof.
  intros Hb Hk. rewrite Z.shiftl_mul_pow2 by lia.
  assert (0 < 2 ^ k) by (apply Z.pow_pos_nonneg; lia).
  assert (2 ^ k <= 2 ^ 24) by (apply Z.pow_le_mono_r; lia).
  split; [nia|].
  apply Z.le_lt_trans with (255 * 2 ^ 24); [nia|reflexivity].
Qed.

Lemma land_255_range (x : Z) : 0 <= Z.land x 255 < 256.
Proof.
  change 255 with (Z.ones 8). rewrite Z.land_ones by lia.
  apply Z.mod_pos_bound. reflexivity.
Qed.

Lemma BigEndian_Uint32_range (b0 b1 b2 b3 : Z) (rest : list Z) :
  0 <= b0 < 256 -> 0 <= b1 < 256 -> 0 <= b2 < 256 -> 0 <= b3 < 256 ->
  0 <= BigEndian_Uint32 (b0 :: b1 :: b2 :: b3 :: rest) < 2 ^ 32.
Proof.
  intros H0 H1 H2 H3. unfold BigEndian_Uint32. cbn [nth].
  repeat apply lor_range; try (apply byte_shiftl_range; lia).
  lia.
Qed.

(** [hashIP] yields a [uint32]. *)
Lemma hashIP_range (ip : string) : 0 <= hashIP ip < 2 ^ 32.
Proof.
  unfold hashIP, md5.Sum.
  destruct (md5.blocks _ _ _) as [[[a b] c] d].
  unfold md5.le_bytes. cbn [seq map app].
  apply BigEndian_Uint32_range; apply land_255_range.
Qed.

Lemma int_of_uint32_id (x : Z) : 0 <= x < 2 ^ 32 -> int_of_uint32 x = x.
Proof.
  intros Hx. apply wrap_int_id. unfold in_int, min_int, max_int. lia.
Qed.

(** ** Slices *)

Lemma len_pos {A : Type} (l : list A) : l <> [] -> 0 < len l.
Proof. destruct l; [congruence|]. unfold len. simpl. lia. Qed.

Lemma index_in_range {S A : Type} (l : list A) (i : Z) (s : S) :
  0 <= i < len l ->
  exists x, l !! Z.to_nat i = Some x /\ index l i s = Ret (x, s).
Proof.
  intros Hi. unfold index, len in *.
  destruct (i <? 0) eqn:E; [lia|].
  destruct (lookup_lt_is_Some_2 l (Z.to_nat i)) as [x Hx]; [lia|].
  exists x. rewrite Hx. split; reflexivity.
Qed.

Lemma go_rem_in_range {S : Type} (a n : Z) (s : S) :
  0 <= a -> 0 < n ->
  go_rem a n s = Ret (Z.rem a n, s) /\ 0 <= Z.rem a n < n.
Proof.
  intros Ha Hn. unfold go_rem.
  destruct (n =? 0) eqn:E; [lia|].
  split; [reflexivity|]. apply Z.rem_bound_pos; lia.
Qed.

(** ** Source-IP hash *)

Section SourceIPHashFacts.
Import SourceIPHash.
Variable net : Network.
Variable lb : loadBalancer.

Lemma startIndex_in_range (ip : string) (t : World) :
  servers lb <> [] ->
  startIndex lb ip t = Ret (Z.rem (hashIP ip) (len (servers lb)), t) /\
  0 <= Z.rem (hashIP ip) (len (servers lb)) < len (servers lb).
Proof.
  intros Hne. unfold startIndex.
  rewrite int_of_uint32_id by apply hashIP_range.
  apply go_rem_in_range; [apply hashIP_range | apply len_pos, Hne].
Qed.

(** From a position inside the pool the probing loop never leaves the pool. *)
Lemma probe_loop_in_range (fuel : nat) :
  forall (i : Z) (t : World),
    0 <= i < len (servers lb) ->
    match probe_loop net lb fuel i t with
    | Ret (j, _) => 0 <= j < len (servers lb)
    | Panic => False
    | OutOfFuel => True
    end.
Proof.
  induction fuel as [|fuel IH]; intros i t Hi; [exact I|].
  cbn [probe_loop]. unfold bind at 1.
  destruct (index_in_range (servers lb) i t Hi) as (s & _ & ->).
  unfold bind at 1, IsAlive at 1.
  destruct (probe_alive (net t (addr s))); cbn [negb]; [exact Hi|].
  unfold bind at 1.
  destruct (go_rem_in_range (S := World) (i + 1) (len (servers lb)) (S t))
    as [-> Hr]; [lia..|].
  apply IH, Hr.
Qed.

(** With every probe failing, the loop uses up any number of turns. *)
Lemma probe_loop_all_dead (fuel : nat) :
  (forall t a, probe_alive (net t a) = false) ->
  forall (i : Z) (t : World),
    0 <= i < len (servers lb) ->
    probe_loop net lb fuel i t = OutOfFuel.
Proof.
  intros Hdead. induction fuel as [|fuel IH]; intros i t Hi; [reflexivity|].
  cbn [probe_loop]. unfold bind at 1.
  destruct (index_in_range (servers lb) i t Hi) as (s & _ & ->).
  unfold bind at 1, IsAlive at 1. rewrite Hdead. cbn [negb].
  unfold bind at 1.
  destruct (go_rem_in_range (S := World) (i + 1) (len (servers lb)) (S t))
    as [-> Hr]; [lia..|].
  apply IH, Hr.
Qed.

Lemma pickServer_all_dead (fuel : nat) (ip : string) (t : World) :
  servers lb <> [] ->
  (forall t a, probe_alive (net t a) = false) ->
  pickServer net lb fuel ip t = OutOfFuel
  /\ serveProxy net lb fuel ip t = OutOfFuel.
Proof.
  intros Hne Hdead.
  assert (Hpick : pickServer net lb fuel ip t = OutOfFuel).
  { unfold pickServer. unfold bind at 1.
    destruct (startIndex_in_range ip t Hne) as [-> Hr].
    unfold bind at 1. rewrite probe_loop_all_dead by assumption. reflexivity. }
  split; [exact Hpick|].
  unfold serveProxy, bind. rewrite Hpick. reflexivity.
Qed.

(** A second run of the loop whose probes get the answers that the probes
    of the first run got makes the same turns. *)
Lemma probe_loop_replay (fuel : nat) :
  forall (i : Z) (t1 t2 : World) (j : Z) (t1' : World),
    probe_loop net lb fuel i t1 = Ret (j, t1') ->
    (forall k s, (t1 + k < t1')%nat ->
       servers lb !! Z.to_nat (probed_index (len (servers lb)) i k) = Some s ->
       probe_alive (net (t2 + k)%nat (addr s))
       = probe_alive (net (t1 + k)%nat (addr s))) ->
    (t1 < t1')%nat /\
    probe_loop net lb fuel i t2 = Ret (j, (t2 + (t1' - t1))%nat).
Proof.
  induction fuel as [|fuel IH]; intros i t1 t2 j t1' Hrun Hsame; [discriminate|].
  cbn [probe_loop] in *. unfold bind at 1 in Hrun. unfold bind at 1.
  unfold index in *. destruct (i <? 0); [discriminate|].
  destruct (servers lb !! Z.to_nat i) as [s|] eqn:Hs; [|discriminate].
  cbn [ret] in *. unfold bind at 1 in Hrun. unfold bind at 1.
  unfold IsAlive at 1 in Hrun. unfold IsAlive at 1.
  destruct (probe_alive (net t1 (addr s))) eqn:Ha; cbn [negb] in Hrun.
  - injection Hrun as <- <-.
    specialize (Hsame 0%nat s). cbn [probed_index] in Hsame.
    rewrite !Nat.add_0_r in Hsame.
    rewrite Hsame, Ha by (lia || exact Hs). cbn [negb].
    split; [lia|]. unfold ret. do 2 f_equal. lia.
  - unfold bind at 1 in Hrun. unfold go_rem in *.
    destruct (len (servers lb) =? 0); [discriminate|]. cbn [ret] in Hrun.
    destruct (IH _ (S t1) (S t2) _ _ Hrun) as [Hlt Hrun2].
    { intros k s' Hk Hs'. replace (S t2 + k)%nat with (t2 + S k)%nat by lia.
      replace (S t1 + k)%nat with (t1 + S k)%nat by lia.
      apply Hsame; [lia|exact Hs']. }
    specialize (Hsame 0%nat s). cbn [probed_index] in Hsame.
    rewrite !Nat.add_0_r in Hsame.
    rewrite Hsame, Ha by (lia || exact Hs). cbn [negb].
    split; [lia|]. unfold bind at 1. cbn [ret]. rewrite Hrun2.
    do 2 f_equal. lia.
Qed.

End SourceIPHashFacts.

(** C10: for a non-empty pool and any client address, [int(hashIP(ip))] is
    not negative, the starting index [int(hashIP(ip)) % len(lb.servers)] lies
    in [0, len(lb.servers)), and no slice access of [pickServer] is out of
    bounds: the call never panics, whatever the network answers. *)
Theorem C10_hash_index_in_bounds :
  forall (lb : SourceIPHash.loadBalancer) (ip : string),
    SourceIPHash.servers lb <> [] ->
    0 <= int_of_uint32 (hashIP ip) < 2 ^ 32 /\
    (forall t, exists i,
        SourceIPHash.startIndex lb ip t = Ret (i, t) /\
        0 <= i < len (SourceIPHash.servers lb)) /\
    (forall net fuel t, SourceIPHash.pickServer net lb fuel ip t <> Panic).
Proof.
  intros lb ip Hne. split; [|split].
  - rewrite int_of_uint32_id by apply hashIP_range. apply hashIP_range.
  - intros t. destruct (startIndex_in_range lb ip t Hne) as [Hs Hr]. eauto.
  - intros net fuel t. unfold SourceIPHash.pickServer. unfold bind at 1.
    destruct (startIndex_in_range lb ip t Hne) as [-> Hr].
    unfold bind at 1.
    pose proof (probe_loop_in_range net lb fuel _ t Hr) as Hloop.
    destruct (SourceIPHash.probe_loop net lb fuel _ t) as [[j t']| |];
      [|contradiction|discriminate].
    unfold bind at 1.
    destruct (index_in_range (SourceIPHash.servers lb) j t' Hloop) as (s & _ & ->).
    discriminate.
Qed.

Lemma C10_hash_index_in_bounds_witness :
  SourceIPHash.servers SourceIPHash.flaky_pool <> [] /\
  forall net fuel t,
    SourceIPHash.pickServer net SourceIPHash.flaky_pool fuel "10.0.0.1:5000" t
    <> Panic.
Proof.
  split; [discriminate|].
  apply (C10_hash_index_in_bounds SourceIPHash.flaky_pool "10.0.0.1:5000").
  discriminate.
Defined.

(** C4, as stated, fails: with the pool [A, B] and a client address that
    hashes to B, a first call made while B is down returns A; A stays alive
    at every later probe, yet a second call made when B is back returns B. *)
Lemma C4_chosen_alive_not_enough :
  SourceIPHash.pickServer SourceIPHash.flaky_net SourceIPHash.flaky_pool
    2 "10.0.0.1:5000" 0%nat = Ret (Some 0%nat, 2%nat) /\
  (forall t,
      SourceIPHash.IsAlive SourceIPHash.flaky_net
        (SourceIPHash.newSimpleServer "http://a.example") t = Ret (true, S t)) /\
  SourceIPHash.pickServer SourceIPHash.flaky_net SourceIPHash.flaky_pool
    2 "10.0.0.1:5000" 2%nat = Ret (Some 1%nat, 3%nat).
Proof.
  split; [vm_compute; reflexivity|]. split; [|vm_compute; reflexivity].
  intros t. reflexivity.
Qed.

(** C4, amended: for every client address and an unchanged pool, a second
    call of the source-IP-hash pick returns the same backend as the first
    when each of its probes gets the answer that the probe of the first call
    to the same backend got: the backends found dead before the chosen one
    are dead again and the chosen one is alive again. Nothing is asked of
    the backends the first call did not probe. *)
Theorem C4_same_answers_same_backend :
  forall (net : Network) (lb : SourceIPHash.loadBalancer) (ip : string)
         (fuel : nat) (t1 t2 : nat) (r : option nat) (t1' : nat),
    SourceIPHash.pickServer net lb fuel ip t1 = Ret (r, t1') ->
    (forall k s, (t1 + k < t1')%nat ->
       SourceIPHash.servers lb !! Z.to_nat (SourceIPHash.probed lb ip k)
       = Some s ->
       probe_alive (net (t2 + k)%nat (SourceIPHash.addr s))
       = probe_alive (net (t1 + k)%nat (SourceIPHash.addr s))) ->
    SourceIPHash.pickServer net lb fuel ip t2 = Ret (r, (t2 + (t1' - t1))%nat).
Proof.
  intros net lb ip fuel t1 t2 r t1' Hrun Hsame.
  unfold SourceIPHash.probed in Hsame.
  unfold SourceIPHash.pickServer in *.
  unfold bind at 1 in Hrun. unfold bind at 1.
  unfold SourceIPHash.startIndex, go_rem in *.
  destruct (len (SourceIPHash.servers lb) =? 0); [discriminate|].
  cbn [ret] in *. unfold bind at 1 in Hrun. unfold bind at 1.
  destruct (SourceIPHash.probe_loop net lb fuel _ t1) as [[j u]| |] eqn:Hloop;
    [|discriminate..].
  destruct (probe_loop_replay net lb fuel _ t1 t2 j u Hloop) as [Hlt ->].
  { intros k s Hk Hs. apply Hsame; [|exact Hs].
    unfold bind at 1 in Hrun. unfold index in Hrun.
    destruct (j <? 0); [discriminate|].
    destruct (SourceIPHash.servers lb !! Z.to_nat j); [|discriminate].
    cbn in Hrun. injection Hrun as <- <-. exact Hk. }
  unfold bind at 1 in Hrun. unfold bind at 1. unfold index in *.
  destruct (j <? 0); [discriminate|].
  destruct (SourceIPHash.servers lb !! Z.to_nat j); [|discriminate].
  cbn in *. injection Hrun as <- <-. reflexivity.
Qed.

(** In the pool [A, B, C] the address hashes to B: both calls find B dead
    and return C, although A, which neither call probes, answered during
    the first call and no longer answers during the second. *)
Lemma C4_same_answers_same_backend_witness :
  (probe_alive (SourceIPHash.drift_net 0%nat "http://a.example") = true /\
   probe_alive (SourceIPHash.drift_net 2%nat "http://a.example") = false) /\
  SourceIPHash.pickServer SourceIPHash.drift_net SourceIPHash.drift_pool
    2 "10.0.0.1:5000" 0%nat = Ret (Some 2%nat, 2%nat) /\
  SourceIPHash.pickServer SourceIPHash.drift_net SourceIPHash.drift_pool
    2 "10.0.0.1:5000" 2%nat = Ret (Some 2%nat, 4%nat).
Proof.
  split; [split; reflexivity|].
  assert (Hfirst :
    SourceIPHash.pickServer SourceIPHash.drift_net SourceIPHash.drift_pool
      2 "10.0.0.1:5000" 0%nat = Ret (Some 2%nat, 2%nat))
    by (vm_compute; reflexivity).
  split; [exact Hfirst|].
  apply (C4_same_answers_same_backend SourceIPHash.drift_net
           SourceIPHash.drift_pool "10.0.0.1:5000" 2 0 2 (Some 2%nat) 2 Hfirst).
  intros k s Hk Hs.
  destruct k as [|[|k]]; [| |lia].
  - vm_compute in Hs. injection Hs as <-. reflexivity.
  - vm_compute in Hs. injection Hs as <-. reflexivity.
Defined.

(** ** Round robin *)

Section RoundRobinScenario.
Import RoundRobin.
Variable net : Network.
Variables (listen a b c : string).
Hypothesis a_alive : forall t, probe_alive (net t a) = true.
Hypothesis b_alive : forall t, probe_alive (net t b) = true.
Hypothesis c_dead : forall t, probe_alive (net t c) = false.

Local Abbreviation at_cursor := (RoundRobin.at_cursor listen a b c).

Lemma rr_pick_loop_S (fuel : nat) (startIndex : Z) :
  pick_loop net (S fuel) startIndex
  = (l <- get_lb ;;
     i <- go_rem (roundRobinIndex l) (len (servers l)) ;;
     server <- index (servers l) i ;;
     next <- go_rem (wrap_int (roundRobinIndex l + 1)) (len (servers l)) ;;
     _ <- set_roundRobinIndex next ;;
     alive <- IsAlive net server ;;
     if alive then ret (Some (Z.to_nat i))
     else
       l' <- get_lb ;;
       if roundRobinIndex l' =? startIndex
       then ret None
       else pick_loop net fuel startIndex).
Proof. reflexivity. Qed.

Ltac turn := rewrite rr_pick_loop_S; cbv -[probe_alive pick_loop].
Ltac start := unfold pickServer, RoundRobin.at_cursor, three_servers;
              cbv -[probe_alive pick_loop]; turn.

Lemma pick_at_A (fuel t : nat) :
  pickServer net (S fuel) (at_cursor 0 t) = Ret (Some 0%nat, at_cursor 1 (S t)).
Proof. start. rewrite a_alive. reflexivity. Qed.

Lemma pick_at_B (fuel t : nat) :
  pickServer net (S fuel) (at_cursor 1 t) = Ret (Some 1%nat, at_cursor 2 (S t)).
Proof. start. rewrite b_alive. reflexivity. Qed.

(** At the dead backend the cursor moves on and the loop takes a second turn. *)
Lemma pick_at_C (fuel t : nat) :
  pickServer net (S (S fuel)) (at_cursor 2 t)
  = Ret (Some 0%nat, at_cursor 1 (S (S t))).
Proof. start. rewrite c_dead. turn. rewrite a_alive. reflexivity. Qed.

Lemma picks_A_B_A (fuel t : nat) :
  picks net (S (S fuel)) 3 (at_cursor 0 t)
  = Ret ([Some 0%nat; Some 1%nat; Some 0%nat], at_cursor 1 (4 + t)).
Proof.
  cbn [picks]. unfold bind at 1. rewrite pick_at_A.
  unfold bind at 1 2. rewrite pick_at_B.
  unfold bind at 1 2. rewrite pick_at_C. reflexivity.
Qed.

Lemma picks_A_B (fuel t : nat) :
  picks net (S (S fuel)) 2 (at_cursor 0 t)
  = Ret ([Some 0%nat; Some 1%nat], at_cursor 2 (2 + t)).
Proof.
  cbn [picks]. unfold bind at 1. rewrite pick_at_A.
  unfold bind at 1 2. rewrite pick_at_B. reflexivity.
Qed.

(** Whatever the number of calls, only A and B are returned. *)
Lemma picks_only_A_B (fuel : nat) :
  forall (n : nat) (i : Z) (t : nat),
    i = 0 \/ i = 1 \/ i = 2 ->
    exists rs w,
      picks net (S (S fuel)) n (at_cursor i t) = Ret (rs, w) /\
      Forall (fun r => r = Some 0%nat \/ r = Some 1%nat) rs.
Proof.
  induction n as [|n IH]; intros i t Hi.
  - exists [], (at_cursor i t). split; [reflexivity|constructor].
  - cbn [picks]. unfold bind at 1.
    destruct Hi as [->|[->| ->]].
    + rewrite pick_at_A.
      destruct (IH 1 (S t)) as (rs & w & Hrs & Hall); [auto|].
      exists (Some 0%nat :: rs), w. unfold bind at 1. rewrite Hrs.
      split; [reflexivity|]. constructor; auto.
    + rewrite pick_at_B.
      destruct (IH 2 (S t)) as (rs & w & Hrs & Hall); [auto|].
      exists (Some 1%nat :: rs), w. unfold bind at 1. rewrite Hrs.
      split; [reflexivity|]. constructor; auto.
    + rewrite pick_at_C.
      destruct (IH 1 (S (S t))) as (rs & w & Hrs & Hall); [auto|].
      exists (Some 0%nat :: rs), w. unfold bind at 1. rewrite Hrs.
      split; [reflexivity|]. constructor; auto.
Qed.

End RoundRobinScenario.

(** C5: over the pool [A, B, C] with A and B alive at every probe and C dead
    at every probe, three calls of the round-robin pick from cursor 0 return
    A, B, A; after the second the cursor stands on C, after the third it has
    moved past it; and no call, however many are made, returns C or nil. *)
Theorem C5_round_robin_A_B_A :
  forall (net : Network) (listen a b c : string),
    (forall t, probe_alive (net t a) = true) ->
    (forall t, probe_alive (net t b) = true) ->
    (forall t, probe_alive (net t c) = false) ->
    forall (fuel t : nat),
      let w0 := {| RoundRobin.lb :=
                     RoundRobin.newLoadBalancer listen
                       (RoundRobin.three_servers a b c);
                   RoundRobin.clock := t |} in
      (exists w2 w3,
          RoundRobin.picks net (2 + fuel) 2 w0
          = Ret ([Some 0%nat; Some 1%nat], w2) /\
          RoundRobin.roundRobinIndex (RoundRobin.lb w2) = 2 /\
          RoundRobin.picks net (2 + fuel) 3 w0
          = Ret ([Some 0%nat; Some 1%nat; Some 0%nat], w3) /\
          RoundRobin.roundRobinIndex (RoundRobin.lb w3) = 1) /\
      (forall n, exists rs w,
          RoundRobin.picks net (2 + fuel) n w0 = Ret (rs, w) /\
          Forall (fun r => r = Some 0%nat \/ r = Some 1%nat) rs).
Proof.
  intros net listen a b c Ha Hb Hc fuel t w0. split.
  - exists (RoundRobin.at_cursor listen a b c 2 (2 + t)),
      (RoundRobin.at_cursor listen a b c 1 (4 + t)).
    repeat split.
    + apply (picks_A_B net listen a b c Ha Hb).
    + apply (picks_A_B_A net listen a b c Ha Hb Hc).
  - intros n.
    apply (picks_only_A_B net listen a b c Ha Hb Hc fuel n 0 t). auto.
Qed.

Lemma C5_round_robin_A_B_A_witness :
  exists w2 w3,
    RoundRobin.picks RoundRobin.c_down_net 2 2
      {| RoundRobin.lb :=
           RoundRobin.newLoadBalancer "8000"
             (RoundRobin.three_servers "http://a.example" "http://b.example"
                "http://c.example");
         RoundRobin.clock := 0 |}
    = Ret ([Some 0%nat; Some 1%nat], w2) /\
    RoundRobin.roundRobinIndex (RoundRobin.lb w2) = 2 /\
    RoundRobin.picks RoundRobin.c_down_net 2 3
      {| RoundRobin.lb :=
           RoundRobin.newLoadBalancer "8000"
             (RoundRobin.three_servers "http://a.example" "http://b.example"
                "http://c.example");
         RoundRobin.clock := 0 |}
    = Ret ([Some 0%nat; Some 1%nat; Some 0%nat], w3) /\
    RoundRobin.roundRobinIndex (RoundRobin.lb w3) = 1.
Proof.
  apply (C5_round_robin_A_B_A RoundRobin.c_down_net "8000"
           "http://a.example" "http://b.example" "http://c.example");
    intros t; reflexivity.
Defined.

(** ** Weighted round robin *)

Section WeightedScenario.
Import WeightedRoundRobin.
Variable net : Network.
Variables (listen a b c : string).
Hypothesis a_alive : forall t, probe_alive (net t a) = true.
Hypothesis b_alive : forall t, probe_alive (net t b) = true.
Hypothesis c_alive : forall t, probe_alive (net t c) = true.

Local Abbreviation in_phase j t :=
  (at_state listen a b c (fst (phase j)) (snd (phase j)) t).

Lemma wrr_pick_loop_S (fuel : nat) :
  pick_loop net (S fuel)
  = (l <- get_lb ;;
     next <- go_rem (wrap_int (currentServer l + 1)) (len (servers l)) ;;
     _ <- set_currentServer next ;;
     l <- get_lb ;;
     down <- (if currentServer l =? 0 then next_weight else ret false) ;;
     if down then ret None
     else
       l <- get_lb ;;
       counter <- index (weightCounters l) (currentServer l) ;;
       if counter >=? currentWeight l then
         server <- index (servers l) (currentServer l) ;;
         alive <- IsAlive net server ;;
         if alive then ret (Some (Z.to_nat (currentServer l)))
         else pick_loop net fuel
       else pick_loop net fuel).
Proof. reflexivity. Qed.

Ltac settle :=
  cbv -[probe_alive pick_loop];
  rewrite ?a_alive, ?b_alive, ?c_alive;
  cbv -[probe_alive pick_loop].
Ltac turn := rewrite wrr_pick_loop_S; settle.

(** One call, phase by phase: it succeeds within three turns of the loop,
    issues one probe, and leads to the next phase. *)
Lemma pick_in_phase (fuel : nat) (j t : nat) :
  (j < 12)%nat ->
  pickServer net (3 + fuel) (in_phase j t)
  = Ret (returned_in j, in_phase (next_phase j) (S t)).
Proof.
  intros Hj. unfold pickServer.
  do 12 (destruct j as [|j];
         [settle; repeat turn; reflexivity|]).
  lia.
Qed.

Lemma next_phase_lt (j : nat) : (j < 12)%nat -> (next_phase j < 12)%nat.
Proof.
  intros Hj. unfold next_phase. destruct (j <? 11)%nat eqn:E; [|lia].
  apply Nat.ltb_lt in E. lia.
Qed.

Lemma picks_from_phase (fuel : nat) :
  forall (n j t : nat),
    (j < 12)%nat ->
    exists w,
      picks net (3 + fuel) n (in_phase j t) = Ret (returned_from j n, w).
Proof.
  induction n as [|n IH]; intros j t Hj.
  - eexists. reflexivity.
  - cbn [picks returned_from]. unfold bind at 1.
    rewrite pick_in_phase by exact Hj.
    destruct (IH (next_phase j) (S t) (next_phase_lt j Hj)) as [w Hw].
    exists w. unfold bind at 1. rewrite Hw. reflexivity.
Qed.

End WeightedScenario.

(** The calls after the first [k] are the calls made from the phase reached
    after [k] calls. *)
Lemma drop_returned_from (k : nat) :
  forall (j m : nat),
    (j < 12)%nat ->
    exists j', (j' < 12)%nat /\
      drop k (WeightedRoundRobin.returned_from j (k + m))
      = WeightedRoundRobin.returned_from j' m.
Proof.
  induction k as [|k IH]; intros j m Hj.
  - exists j. split; [exact Hj|reflexivity].
  - cbn [Nat.add WeightedRoundRobin.returned_from drop].
    apply IH, next_phase_lt, Hj.
Qed.

(** Nine calls in a row, from any phase. *)
Lemma nine_from_any_phase (j : nat) :
  (j < 12)%nat ->
  let window := WeightedRoundRobin.returned_from j 9 in
  length window = 9%nat /\
  WeightedRoundRobin.count_returned 0 window = 5%nat /\
  WeightedRoundRobin.count_returned 1 window = 3%nat /\
  WeightedRoundRobin.count_returned 2 window = 1%nat /\
  (WeightedRoundRobin.longest_run 0 window <= 3)%nat /\
  WeightedRoundRobin.longest_run 1 window = 1%nat.
Proof.
  intros Hj.
  do 12 (destruct j as [|j];
         [repeat apply conj; vm_compute; first [reflexivity | lia]|]).
  lia.
Qed.

(** C2: for the weighted balancer built over three backends of weights 5, 3
    and 1 that answer every probe, any number of calls of [pickServer] return,
    and in every window of 9 consecutive calls the weight-5 backend is
    returned 5 times, the weight-3 backend 3 times and the weight-1 backend
    once; the picks are interleaved: within a window the weight-5 backend
    comes at most 3 times in a row and the weight-3 backend never twice in a
    row. *)
Theorem C2_weighted_windows_of_nine :
  forall (net : Network) (listen a b c : string),
    (forall t, probe_alive (net t a) = true) ->
    (forall t, probe_alive (net t b) = true) ->
    (forall t, probe_alive (net t c) = true) ->
    forall (fuel t k : nat),
    exists rs w,
      WeightedRoundRobin.picks net (3 + fuel) (k + 9)
        {| WeightedRoundRobin.lb :=
             WeightedRoundRobin.newLoadBalancer listen
               (WeightedRoundRobin.weighted_servers a b c);
           WeightedRoundRobin.clock := t |}
      = Ret (rs, w) /\
      let window := drop k rs in
      length window = 9%nat /\
      WeightedRoundRobin.count_returned 0 window = 5%nat /\
      WeightedRoundRobin.count_returned 1 window = 3%nat /\
      WeightedRoundRobin.count_returned 2 window = 1%nat /\
      (WeightedRoundRobin.longest_run 0 window <= 3)%nat /\
      WeightedRoundRobin.longest_run 1 window = 1%nat.
Proof.
  intros net listen a b c Ha Hb Hc fuel t k.
  destruct (picks_from_phase net listen a b c Ha Hb Hc fuel (k + 9) 0 t)
    as [w Hw]; [lia|].
  exists (WeightedRoundRobin.returned_from 0 (k + 9)), w.
  split; [exact Hw|].
  destruct (drop_returned_from k 0 9) as (j & Hj & ->); [lia|].
  apply nine_from_any_phase, Hj.
Qed.

Lemma C2_weighted_windows_of_nine_witness :
  exists rs w,
    WeightedRoundRobin.picks WeightedRoundRobin.up_net 3 (4 + 9)
      {| WeightedRoundRobin.lb := WeightedRoundRobin.main_lb;
         WeightedRoundRobin.clock := 0 |}
    = Ret (rs, w) /\
    let window := drop 4 rs in
    length window = 9%nat /\
    WeightedRoundRobin.count_returned 0 window = 5%nat /\
    WeightedRoundRobin.count_returned 1 window = 3%nat /\
    WeightedRoundRobin.count_returned 2 window = 1%nat /\
    (WeightedRoundRobin.longest_run 0 window <= 3)%nat /\
    WeightedRoundRobin.longest_run 1 window = 1%nat.
Proof.
  apply (C2_weighted_windows_of_nine WeightedRoundRobin.up_net "8000"
           "https://www.facebook.com" "http://www.bing.com"
           "http://www.duckduckgo.com"); intros t; reflexivity.
Defined.

(** The first picks of the pool of [main]: weight 3, weight 1, then the
    cycle 5 5 5 3 5 3 5 3 1. *)
Example weighted_first_twelve :
  exists w,
    WeightedRoundRobin.picks WeightedRoundRobin.up_net 3 12
      {| WeightedRoundRobin.lb := WeightedRoundRobin.main_lb;
         WeightedRoundRobin.clock := 0 |}
    = Ret (map Some [1; 2; 0; 0; 0; 1; 0; 1; 0; 1; 2; 0]%nat, w).
Proof. eexists. vm_compute. reflexivity. Qed.

Section WeightedAllDead.
Import WeightedRoundRobin.
Variable net : Network.
Hypothesis all_dead : forall t a, probe_alive (net t a) = false.

(** When the cursor wraps, the current weight is renewed from the static
    weights, whatever the probes say: with a positive weight in the pool the
    "all servers are down" exit is not taken. *)
Lemma next_weight_goes_on (l : loadBalancer) (t : nat) :
  maxWeight (servers l) <> 0 ->
  exists cw,
    next_weight {| lb := l; clock := t |}
    = Ret (false, {| lb := {| port := port l; currentWeight := cw;
                              currentServer := currentServer l;
                              servers := servers l;
                              weightCounters := weightCounters l |};
                     clock := t |}).
Proof.
  intros Hmax. destruct l as [p cw cs srv wcs]. unfold next_weight.
  cbv [bind get_lb set_currentWeight lb clock port currentWeight currentServer
       servers weightCounters].
  destruct (wrap_int (cw - 1) <=? 0).
  - cbn [servers] in Hmax.
    destruct (maxWeight srv =? 0) eqn:E; [lia|]. eexists. reflexivity.
  - eexists. reflexivity.
Qed.

Lemma pick_loop_all_dead (fuel : nat) :
  forall (l : loadBalancer) (t : nat),
    0 <= currentServer l < len (servers l) ->
    len (servers l) <= max_int ->
    length (weightCounters l) = length (servers l) ->
    maxWeight (servers l) <> 0 ->
    pick_loop net fuel {| lb := l; clock := t |} = OutOfFuel.
Proof.
  induction fuel as [|fuel IH]; intros l t Hcs Hlen Hwc Hmax; [reflexivity|].
  destruct l as [p cw cs srv wcs].
  cbn [currentServer servers weightCounters] in *.
  cbn [pick_loop]. unfold bind at 1, get_lb at 1. cbn [lb currentServer servers].
  rewrite wrap_int_id by (unfold in_int, min_int, max_int in *; lia).
  unfold bind at 1.
  destruct (go_rem_in_range (S := World) (cs + 1) (len srv)
              {| lb := Build_loadBalancer p cw cs srv wcs; clock := t |})
    as [-> Hr]; [lia..|].
  set (cs' := Z.rem (cs + 1) (len srv)) in *.
  unfold bind at 1, set_currentServer at 1.
  cbn [lb clock port currentWeight currentServer servers weightCounters].
  unfold bind at 1, get_lb at 1. cbn [lb currentServer].
  assert (Hdown : exists cw',
    (if cs' =? 0 then next_weight else ret false)
      {| lb := Build_loadBalancer p cw cs' srv wcs; clock := t |}
    = Ret (false, {| lb := Build_loadBalancer p cw' cs' srv wcs; clock := t |})).
  { destruct (cs' =? 0).
    - apply (next_weight_goes_on (Build_loadBalancer p cw cs' srv wcs) t Hmax).
    - exists cw. reflexivity. }
  destruct Hdown as [cw' Hdown]. unfold bind at 1. rewrite Hdown.
  unfold bind at 1, get_lb at 1. cbn [lb currentServer weightCounters].
  unfold bind at 1.
  destruct (index_in_range wcs cs'
              {| lb := Build_loadBalancer p cw' cs' srv wcs; clock := t |})
    as (counter & _ & ->); [unfold len in *; lia|].
  cbn [lb currentWeight servers currentServer].
  destruct (counter >=? cw').
  - unfold bind at 1.
    destruct (index_in_range srv cs'
                {| lb := Build_loadBalancer p cw' cs' srv wcs; clock := t |})
      as (s & _ & ->); [exact Hr|].
    unfold bind at 1, IsAlive at 1. rewrite all_dead.
    cbn [lb clock]. apply IH; assumption.
  - apply IH; assumption.
Qed.

End WeightedAllDead.

(** ** With every probe failing: the programs that never answer *)

(** C1 fails on the code for two of the five strategies. When every probe
    fails, the source-IP-hash pick over the pool [A, B] and the weighted pick
    over the pool of [main] (weights 5, 3, 1) keep looping: whatever the
    number of turns allowed, the client address and the time of the call,
    [pickServer] does not return, so [serveProxy] never writes the 503. *)
Theorem C1_hash_and_weighted_loop_forever :
  (forall (fuel : nat) (ip : string) (t : nat),
      SourceIPHash.pickServer SourceIPHash.dead_net SourceIPHash.flaky_pool
        fuel ip t = OutOfFuel /\
      SourceIPHash.serveProxy SourceIPHash.dead_net SourceIPHash.flaky_pool
        fuel ip t = OutOfFuel) /\
  (forall (fuel : nat) (t : nat),
      WeightedRoundRobin.pickServer WeightedRoundRobin.down_net fuel
        {| WeightedRoundRobin.lb := WeightedRoundRobin.main_lb;
           WeightedRoundRobin.clock := t |} = OutOfFuel /\
      WeightedRoundRobin.serveProxy WeightedRoundRobin.down_net fuel
        {| WeightedRoundRobin.lb := WeightedRoundRobin.main_lb;
           WeightedRoundRobin.clock := t |} = OutOfFuel).
Proof.
  split.
  - intros fuel ip t. apply pickServer_all_dead; [discriminate|reflexivity].
  - intros fuel t.
    assert (Hpick :
      WeightedRoundRobin.pickServer WeightedRoundRobin.down_net fuel
        {| WeightedRoundRobin.lb := WeightedRoundRobin.main_lb;
           WeightedRoundRobin.clock := t |} = OutOfFuel).
    { apply pick_loop_all_dead; try reflexivity; try discriminate.
      vm_compute. split; [discriminate|reflexivity]. }
    split; [exact Hpick|].
    unfold WeightedRoundRobin.serveProxy, bind. rewrite Hpick. reflexivity.
Qed.

(** ** Least connections *)

Lemma max_int_sentinel_eq : LeastConnection.max_int_sentinel = max_int.
Proof. reflexivity. Qed.

Section LeastConnectionScan.
Import LeastConnection.
Variable net : Network.
Variable l : loadBalancer.
Variable t0 : nat.

Local Abbreviation alive := (alive_in_scan net t0 l).
Local Abbreviation count := (count_at l).

Local Abbreviation scanned := (LeastConnection.scanned net t0 l).

Lemma scan_scanned (m : nat) :
  forall (k : nat) (sel : option nat) (min : Z),
    (k + m)%nat = length (servers l) ->
    scanned k sel min ->
    exists sel' min',
      scan net (seq k m) sel min {| lb := l; clock := t0 + k |}
      = Ret (sel', {| lb := l; clock := t0 + length (servers l) |}) /\
      scanned (length (servers l)) sel' min'.
Proof.
  induction m as [|m IH]; intros k sel min Hk Hinv.
  - exists sel, min. replace (length (servers l)) with k by lia.
    split; [reflexivity|exact Hinv].
  - cbn [seq scan].
    destruct (lookup_lt_is_Some_2 (servers l) k) as [s Hs]; [lia|].
    assert (Halive : alive k = probe_alive (net (t0 + k)%nat (addr s)))
      by (unfold alive_in_scan; rewrite Hs; reflexivity).
    assert (Hcount : count k = connections s)
      by (unfold count_at; rewrite Hs; reflexivity).
    unfold bind at 1, IsAlive at 1, bind at 1 2, server_at at 1, http_get at 1.
    cbn [lb ret]. rewrite Hs. cbn [lb clock ret]. rewrite <- Halive.
    replace (S (t0 + k)) with (t0 + S k)%nat by lia.
    assert (Hdead : alive k = false -> scanned (S k) sel min).
    { intros Hd. destruct sel as [q|]; cbn [LeastConnection.scanned] in *.
      - destruct Hinv as (Hq & Hqa & Hqc & Hle & Hlt).
        repeat split; [lia|assumption..| |assumption].
        intros j Hj Hja. destruct (decide (j = k)) as [->|]; [congruence|].
        apply Hle; [lia|assumption].
      - destruct Hinv as [Hmin Hle]. split; [assumption|].
        intros j Hj Hja. destruct (decide (j = k)) as [->|]; [congruence|].
        apply Hle; [lia|assumption]. }
    destruct (alive k) eqn:Ha; [|apply IH; [lia|auto]].
    unfold bind at 1, Connections_of at 1, bind at 1, server_at at 1.
    cbn [lb]. rewrite Hs. cbn [ret]. unfold Connections. rewrite <- Hcount.
    destruct (count k <? min) eqn:Hcmp.
    + apply IH; [lia|]. apply Z.ltb_lt in Hcmp. cbn [LeastConnection.scanned].
      repeat split; [lia|assumption| |].
      * intros j Hj Hja. destruct (decide (j = k)) as [->|]; [lia|].
        destruct sel as [q|]; cbn [LeastConnection.scanned] in Hinv.
        -- destruct Hinv as (_ & _ & _ & Hle & _).
           specialize (Hle j ltac:(lia) Hja). lia.
        -- destruct Hinv as [-> Hle]. specialize (Hle j ltac:(lia) Hja). lia.
      * intros j Hj Hja.
        destruct sel as [q|]; cbn [LeastConnection.scanned] in Hinv.
        -- destruct Hinv as (_ & _ & _ & Hle & _).
           specialize (Hle j ltac:(lia) Hja). lia.
        -- destruct Hinv as [-> Hle]. specialize (Hle j ltac:(lia) Hja). lia.
    + apply IH; [lia|]. apply Z.ltb_ge in Hcmp.
      destruct sel as [q|]; cbn [LeastConnection.scanned] in *.
      * destruct Hinv as (Hq & Hqa & Hqc & Hle & Hlt).
        repeat split; [lia|assumption..| |assumption].
        intros j Hj Hja. destruct (decide (j = k)) as [->|]; [lia|].
        apply Hle; [lia|assumption].
      * destruct Hinv as [-> Hle]. split; [reflexivity|].
        intros j Hj Hja. destruct (decide (j = k)) as [->|]; [lia|].
        apply Hle; [lia|assumption].
Qed.

(** The call returns, leaves the balancer as it was, and has issued one GET
    per backend. *)
Lemma pickServer_scanned :
  exists sel min,
    pickServer net {| lb := l; clock := t0 |}
    = Ret (sel, {| lb := l; clock := t0 + length (servers l) |}) /\
    scanned (length (servers l)) sel min.
Proof.
  unfold pickServer, bind, get_lb. cbn [lb].
  rewrite max_int_sentinel_eq.
  replace {| lb := l; clock := t0 |} with {| lb := l; clock := t0 + 0 |}
    by (f_equal; lia).
  apply scan_scanned; [reflexivity|].
  cbn [LeastConnection.scanned]. split; [reflexivity|]. intros j Hj. lia.
Qed.

Lemma alive_in_range (j : nat) :
  alive j = true -> (j < length (servers l))%nat.
Proof.
  unfold alive_in_scan. destruct (servers l !! j) eqn:E; [|discriminate].
  intros _. apply lookup_lt_Some in E. exact E.
Qed.

End LeastConnectionScan.

(** C3: for every pool in which at least one backend is alive, the
    least-connections pick returns an alive backend whose count, as read
    during the scan, is less than or equal to the count of every alive
    backend, and it is the first in pool order of the alive backends with
    that count. A counter is the number of [Serve] calls forwarding to the
    backend; it is taken to stay below the largest [int], the value
    [minConnections] starts from. *)
Theorem C3_least_connections_first_minimum :
  forall (net : Network) (l : LeastConnection.loadBalancer) (t : nat),
    (exists j, LeastConnection.alive_in_scan net t l j = true) ->
    (forall j, LeastConnection.alive_in_scan net t l j = true ->
               LeastConnection.count_at l j < max_int) ->
    exists q,
      LeastConnection.pickServer net
        {| LeastConnection.lb := l; LeastConnection.clock := t |}
      = Ret (Some q,
             {| LeastConnection.lb := l;
                LeastConnection.clock :=
                  t + length (LeastConnection.servers l) |}) /\
      LeastConnection.alive_in_scan net t l q = true /\
      (forall j, LeastConnection.alive_in_scan net t l j = true ->
                 LeastConnection.count_at l q <= LeastConnection.count_at l j) /\
      (forall j, LeastConnection.alive_in_scan net t l j = true ->
                 LeastConnection.count_at l j = LeastConnection.count_at l q ->
                 (q <= j)%nat).
Proof.
  intros net l t [j0 Hj0] Hbound. pose proof (Hbound j0 Hj0) as Hlt.
  destruct (pickServer_scanned net l t) as (sel & min & Hrun & Hinv).
  destruct sel as [q|]; cbn [LeastConnection.scanned] in Hinv.
  - destruct Hinv as (Hq & Hqa & Hqc & Hle & Hfirst).
    exists q. repeat split; [exact Hrun|exact Hqa| |].
    + intros j Hja. rewrite Hqc. apply Hle; [|exact Hja].
      apply (alive_in_range net l t), Hja.
    + intros j Hja Heq. destruct (le_lt_dec q j) as [|Hjq]; [assumption|].
      specialize (Hfirst j Hjq Hja). lia.
  - destruct Hinv as [_ Hle].
    specialize (Hle j0 (alive_in_range net l t j0 Hj0) Hj0). lia.
Qed.

Lemma C3_least_connections_first_minimum_witness :
  exists q,
    LeastConnection.pickServer LeastConnection.up_net
      {| LeastConnection.lb := LeastConnection.busy_lb;
         LeastConnection.clock := 0 |}
    = Ret (Some q,
           {| LeastConnection.lb := LeastConnection.busy_lb;
              LeastConnection.clock := 3 |}) /\
    LeastConnection.alive_in_scan LeastConnection.up_net 0
      LeastConnection.busy_lb q = true /\
    (forall j, LeastConnection.alive_in_scan LeastConnection.up_net 0
                 LeastConnection.busy_lb j = true ->
               LeastConnection.count_at LeastConnection.busy_lb q
               <= LeastConnection.count_at LeastConnection.busy_lb j) /\
    (forall j, LeastConnection.alive_in_scan LeastConnection.up_net 0
                 LeastConnection.busy_lb j = true ->
               LeastConnection.count_at LeastConnection.busy_lb j
               = LeastConnection.count_at LeastConnection.busy_lb q ->
               (q <= j)%nat).
Proof.
  apply (C3_least_connections_first_minimum LeastConnection.up_net
           LeastConnection.busy_lb 0).
  - exists 1%nat. reflexivity.
  - intros j _. do 3 (destruct j as [|j]; [vm_compute; reflexivity|]).
    vm_compute. reflexivity.
Defined.

Example least_connections_picks_second :
  LeastConnection.pickServer LeastConnection.up_net
    {| LeastConnection.lb := LeastConnection.busy_lb;
       LeastConnection.clock := 0 |}
  = Ret (Some 1%nat,
         {| LeastConnection.lb := LeastConnection.busy_lb;
            LeastConnection.clock := 3 |}).
Proof. vm_compute. reflexivity. Qed.

(** With every probe failing the scan selects nothing and the dispatcher
    answers 503 without forwarding. *)
Lemma least_connections_all_dead (net : Network)
    (l : LeastConnection.loadBalancer) (t : nat) (o : LeastConnection.ForwardOutcome) :
  (forall t a, probe_alive (net t a) = false) ->
  let w := {| LeastConnection.lb := l; LeastConnection.clock := t |} in
  let w' := {| LeastConnection.lb := l;
               LeastConnection.clock := t + length (LeastConnection.servers l) |} in
  LeastConnection.pickServer net w = Ret (None, w') /\
  LeastConnection.serveProxy net o w
  = Ret (HttpError StatusServiceUnavailable, w').
Proof.
  intros Hdead w w'.
  assert (Hpick : LeastConnection.pickServer net w = Ret (None, w')).
  { destruct (pickServer_scanned net l t) as (sel & min & Hrun & Hinv).
    destruct sel as [q|]; [|exact Hrun].
    cbn [LeastConnection.scanned] in Hinv. destruct Hinv as (_ & Hqa & _).
    unfold LeastConnection.alive_in_scan in Hqa.
    destruct (LeastConnection.servers l !! q); [|discriminate].
    rewrite Hdead in Hqa. discriminate. }
  split; [exact Hpick|].
  unfold LeastConnection.serveProxy, bind. rewrite Hpick. reflexivity.
Qed.

(** ** [Serve] and the connections counter *)

Section ServeTraces.
Import LeastConnection.

Lemma run_cons (e : ServeStep) (tr : list ServeStep) (s : simpleServer) :
  run (e :: tr) s = run tr (serve_step s e).
Proof. reflexivity. Qed.

(** The counter moves by the number of calls entered minus the number of
    calls left, modulo the width of [int]. *)
Lemma run_connections (tr : list ServeStep) :
  forall (s : simpleServer) (d d' : nat),
    in_int (connections s) ->
    in_flight tr d = Some d' ->
    connections (run tr s)
    = wrap_int (connections s + Z.of_nat d' - Z.of_nat d) /\
    addr (run tr s) = addr s.
Proof.
  induction tr as [|e tr IH]; intros s d d' Hs Hfl.
  - cbn in Hfl. injection Hfl as <-. cbn. split; [|reflexivity].
    replace (connections s + Z.of_nat d - Z.of_nat d) with (connections s) by lia.
    symmetry. apply wrap_int_id, Hs.
  - rewrite run_cons. destruct e as [|o].
    + cbn [in_flight] in Hfl. cbn [serve_step].
      destruct (IH (IncrementConnection s) (S d) d') as [Hc Ha];
        [apply wrap_int_range|exact Hfl|].
      rewrite Hc, Ha. cbn [IncrementConnection connections addr].
      split; [|reflexivity].
      replace (wrap_int (connections s + 1) + Z.of_nat d' - Z.of_nat (S d))
        with (wrap_int (connections s + 1) + (Z.of_nat d' - Z.of_nat (S d)))
        by lia.
      rewrite wrap_int_add. f_equal. lia.
    + cbn [in_flight] in Hfl. destruct d as [|d0]; [discriminate|].
      assert (Hstep : serve_step s (Leave o) = DecrementConnection s)
        by (destruct o; reflexivity).
      rewrite Hstep.
      destruct (IH (DecrementConnection s) d0 d') as [Hc Ha];
        [apply wrap_int_range|exact Hfl|].
      rewrite Hc, Ha. cbn [DecrementConnection connections addr].
      split; [|reflexivity].
      replace (connections s - 1) with (connections s + -1) by lia.
      replace (wrap_int (connections s + -1) + Z.of_nat d' - Z.of_nat d0)
        with (wrap_int (connections s + -1) + (Z.of_nat d' - Z.of_nat d0))
        by lia.
      rewrite wrap_int_add. f_equal. lia.
Qed.

End ServeTraces.

(** C6: for every backend and every sequence of [Serve] calls, each an
    increment, the forward and a decrement that runs whether the forward
    succeeded or failed, the connections counter is back at its value before
    the sequence once all the calls have completed; and at every point
    reached from the initial state the counter equals the number of calls
    still forwarding, hence is not negative. That number is taken to fit an
    [int]: it is the number of handlers running at once in the process. *)
Theorem C6_connections_balanced :
  forall (s : LeastConnection.simpleServer)
         (tr : list LeastConnection.ServeStep),
    in_int (LeastConnection.connections s) ->
    (LeastConnection.completed tr -> LeastConnection.run tr s = s) /\
    (LeastConnection.connections s = 0 ->
     forall d,
       LeastConnection.in_flight tr 0 = Some d ->
       Z.of_nat d <= max_int ->
       LeastConnection.connections (LeastConnection.run tr s) = Z.of_nat d /\
       0 <= LeastConnection.connections (LeastConnection.run tr s)).
Proof.
  intros s tr Hs. split.
  - intros Hdone.
    destruct (run_connections tr s 0 0 Hs Hdone) as [Hc Ha].
    replace (LeastConnection.connections s + Z.of_nat 0 - Z.of_nat 0)
      with (LeastConnection.connections s) in Hc by lia.
    rewrite wrap_int_id in Hc by exact Hs.
    destruct (LeastConnection.run tr s) as [a' c'], s as [a c].
    cbn in Hc, Ha. congruence.
  - intros H0 d Hfl Hd.
    destruct (run_connections tr s 0 d Hs Hfl) as [Hc _].
    rewrite H0 in Hc.
    rewrite wrap_int_id in Hc by (unfold in_int, min_int, max_int in *; lia).
    rewrite Hc. lia.
Qed.

Lemma C6_connections_balanced_witness :
  LeastConnection.run
    [ LeastConnection.Enter; LeastConnection.Enter;
      LeastConnection.Leave LeastConnection.TransportFailed;
      LeastConnection.Leave LeastConnection.Forwarded ]
    (LeastConnection.newSimpleServer "http://a.example")
  = LeastConnection.newSimpleServer "http://a.example" /\
  LeastConnection.connections
    (LeastConnection.run
       [ LeastConnection.Enter; LeastConnection.Enter;
         LeastConnection.Leave LeastConnection.TransportFailed ]
       (LeastConnection.newSimpleServer "http://a.example")) = 1 /\
  0 <= LeastConnection.connections
         (LeastConnection.run
            [ LeastConnection.Enter; LeastConnection.Enter;
              LeastConnection.Leave LeastConnection.TransportFailed ]
            (LeastConnection.newSimpleServer "http://a.example")).
Proof.
  assert (Hfresh : in_int (LeastConnection.connections
                             (LeastConnection.newSimpleServer "http://a.example")))
    by (unfold in_int, min_int, max_int; cbn; lia).
  split.
  - apply (C6_connections_balanced
             (LeastConnection.newSimpleServer "http://a.example") _ Hfresh).
    reflexivity.
  - apply (proj2 (C6_connections_balanced
                    (LeastConnection.newSimpleServer "http://a.example")
                    [ LeastConnection.Enter; LeastConnection.Enter;
                      LeastConnection.Leave LeastConnection.TransportFailed ]
                    Hfresh) eq_refl 1%nat eq_refl).
    unfold max_int. cbn. lia.
Defined.

(** ** Least response time *)

Lemma max_duration_sentinel_eq :
  LeastResponseTime.max_duration_sentinel = max_int.
Proof. reflexivity. Qed.

Section LeastResponseTimeScan.
Import LeastResponseTime.
Variable net : Network.
Variable l : loadBalancer.
Variable t0 : nat.

Local Abbreviation alive := (alive_in_scan net t0 l).
Local Abbreviation average := (average_at l).

Local Abbreviation scanned := (LeastResponseTime.scanned net t0 l).

Lemma lrt_scan_scanned (m : nat) :
  forall (k : nat) (sel : option nat) (min : Z),
    (k + m)%nat = length (servers l) ->
    scanned k sel min ->
    exists sel' min',
      scan net (seq k m) sel min {| lb := l; clock := t0 + k |}
      = Ret (sel', {| lb := l; clock := t0 + length (servers l) |}) /\
      scanned (length (servers l)) sel' min'.
Proof.
  induction m as [|m IH]; intros k sel min Hk Hinv.
  - exists sel, min. replace (length (servers l)) with k by lia.
    split; [reflexivity|exact Hinv].
  - cbn [seq scan].
    destruct (lookup_lt_is_Some_2 (servers l) k) as [s Hs]; [lia|].
    assert (Halive : alive k = probe_alive (net (t0 + k)%nat (addr s)))
      by (unfold alive_in_scan; rewrite Hs; reflexivity).
    assert (Havg : average k = AverageResponseTime s)
      by (unfold average_at; rewrite Hs; reflexivity).
    unfold bind at 1, IsAlive at 1, bind at 1 2, server_at at 1, http_get at 1.
    cbn [lb ret]. rewrite Hs. cbn [lb clock ret]. rewrite <- Halive.
    replace (S (t0 + k)) with (t0 + S k)%nat by lia.
    assert (Hdead : alive k = false -> scanned (S k) sel min).
    { intros Hd. destruct sel as [q|]; cbn [LeastResponseTime.scanned] in *.
      - destruct Hinv as (Hq & Hqa & Hqc & Hle & Hlt).
        repeat split; [lia|assumption..| |assumption].
        intros j Hj Hja. destruct (decide (j = k)) as [->|]; [congruence|].
        apply Hle; [lia|assumption].
      - destruct Hinv as [Hmin Hle]. split; [assumption|].
        intros j Hj Hja. destruct (decide (j = k)) as [->|]; [congruence|].
        apply Hle; [lia|assumption]. }
    destruct (alive k) eqn:Ha; [|apply IH; [lia|auto]].
    unfold bind at 1, AverageResponseTime_of at 1, bind at 1, server_at at 1.
    cbn [lb]. rewrite Hs. cbn [ret]. rewrite <- Havg.
    destruct (average k <? min) eqn:Hcmp.
    + apply IH; [lia|]. apply Z.ltb_lt in Hcmp. cbn [LeastResponseTime.scanned].
      repeat split; [lia|assumption| |].
      * intros j Hj Hja. destruct (decide (j = k)) as [->|]; [lia|].
        destruct sel as [q|]; cbn [LeastResponseTime.scanned] in Hinv.
        -- destruct Hinv as (_ & _ & _ & Hle & _).
           specialize (Hle j ltac:(lia) Hja). lia.
        -- destruct Hinv as [-> Hle]. specialize (Hle j ltac:(lia) Hja). lia.
      * intros j Hj Hja.
        destruct sel as [q|]; cbn [LeastResponseTime.scanned] in Hinv.
        -- destruct Hinv as (_ & _ & _ & Hle & _).
           specialize (Hle j ltac:(lia) Hja). lia.
        -- destruct Hinv as [-> Hle]. specialize (Hle j ltac:(lia) Hja). lia.
    + apply IH; [lia|]. apply Z.ltb_ge in Hcmp.
      destruct sel as [q|]; cbn [LeastResponseTime.scanned] in *.
      * destruct Hinv as (Hq & Hqa & Hqc & Hle & Hlt).
        repeat split; [lia|assumption..| |assumption].
        intros j Hj Hja. destruct (decide (j = k)) as [->|]; [lia|].
        apply Hle; [lia|assumption].
      * destruct Hinv as [-> Hle]. split; [reflexivity|].
        intros j Hj Hja. destruct (decide (j = k)) as [->|]; [lia|].
        apply Hle; [lia|assumption].
Qed.

(** As for least connections: the call returns, leaves the balancer as it
    was, and has issued one GET per backend. *)
Lemma lrt_pickServer_scanned :
  exists sel min,
    pickServer net {| lb := l; clock := t0 |}
    = Ret (sel, {| lb := l; clock := t0 + length (servers l) |}) /\
    scanned (length (servers l)) sel min.
Proof.
  unfold pickServer, bind, get_lb. cbn [lb].
  rewrite max_duration_sentinel_eq.
  replace {| lb := l; clock := t0 |} with {| lb := l; clock := t0 + 0 |}
    by (f_equal; lia).
  apply lrt_scan_scanned; [reflexivity|].
  cbn [LeastResponseTime.scanned]. split; [reflexivity|]. intros j Hj. lia.
Qed.

Lemma lrt_alive_in_range (j : nat) :
  alive j = true -> (j < length (servers l))%nat.
Proof.
  unfold alive_in_scan. destruct (servers l !! j) eqn:E; [|discriminate].
  intros _. apply lookup_lt_Some in E. exact E.
Qed.

End LeastResponseTimeScan.

(** C7: for every backend with zero recorded requests,
    [AverageResponseTime] returns zero; consequently the least-response-time
    pick returns such a backend when it is alive, unless an earlier alive
    backend of the pool also has average zero, which is then the one
    returned. The averages of the alive backends are taken not to be
    negative: an average is a quotient of a sum of elapsed times by their
    number. *)
Theorem C7_fresh_backend_favoured :
  forall (s : LeastResponseTime.simpleServer),
    LeastResponseTime.requests s = 0 ->
    LeastResponseTime.AverageResponseTime s = 0 /\
    forall (net : Network) (l : LeastResponseTime.loadBalancer) (t p : nat),
      LeastResponseTime.servers l !! p = Some s ->
      LeastResponseTime.alive_in_scan net t l p = true ->
      (forall j, LeastResponseTime.alive_in_scan net t l j = true ->
                 0 <= LeastResponseTime.average_at l j) ->
      exists q,
        LeastResponseTime.pickServer net
          {| LeastResponseTime.lb := l; LeastResponseTime.clock := t |}
        = Ret (Some q,
               {| LeastResponseTime.lb := l;
                  LeastResponseTime.clock :=
                    t + length (LeastResponseTime.servers l) |}) /\
        (q = p \/
         ((q < p)%nat /\
          LeastResponseTime.alive_in_scan net t l q = true /\
          LeastResponseTime.average_at l q = 0)).
Proof.
  intros s Hreq.
  assert (Hzero : LeastResponseTime.AverageResponseTime s = 0).
  { unfold LeastResponseTime.AverageResponseTime. rewrite Hreq. reflexivity. }
  split; [exact Hzero|].
  intros net l t p Hp Hpa Hnonneg.
  assert (Hpavg : LeastResponseTime.average_at l p = 0)
    by (unfold LeastResponseTime.average_at; rewrite Hp; exact Hzero).
  pose proof (lrt_alive_in_range net l t p Hpa) as Hplt.
  destruct (lrt_pickServer_scanned net l t) as (sel & min & Hrun & Hinv).
  destruct sel as [q|]; cbn [LeastResponseTime.scanned] in Hinv.
  - destruct Hinv as (Hq & Hqa & Hqc & Hle & Hfirst).
    exists q. split; [exact Hrun|].
    pose proof (Hle p Hplt Hpa) as Hmin.
    pose proof (Hnonneg q Hqa) as Hq0.
    destruct (lt_eq_lt_dec q p) as [[Hlt|Heq]|Hgt].
    + right. repeat split; [exact Hlt|exact Hqa|lia].
    + left. exact Heq.
    + specialize (Hfirst p Hgt Hpa). lia.
  - destruct Hinv as [_ Hle]. specialize (Hle p Hplt Hpa).
    unfold max_int in Hle. lia.
Qed.

Lemma C7_fresh_backend_favoured_witness :
  LeastResponseTime.AverageResponseTime
    (LeastResponseTime.newSimpleServer "http://b.example") = 0 /\
  exists q,
    LeastResponseTime.pickServer LeastResponseTime.up_net
      {| LeastResponseTime.lb := LeastResponseTime.warm_lb;
         LeastResponseTime.clock := 0 |}
    = Ret (Some q,
           {| LeastResponseTime.lb := LeastResponseTime.warm_lb;
              LeastResponseTime.clock := 3 |}) /\
    (q = 1%nat \/
     ((q < 1)%nat /\
      LeastResponseTime.alive_in_scan LeastResponseTime.up_net 0
        LeastResponseTime.warm_lb q = true /\
      LeastResponseTime.average_at LeastResponseTime.warm_lb q = 0)).
Proof.
  destruct (C7_fresh_backend_favoured
              (LeastResponseTime.newSimpleServer "http://b.example") eq_refl)
    as [Hzero Hpick].
  split; [exact Hzero|].
  apply (Hpick LeastResponseTime.up_net LeastResponseTime.warm_lb 0%nat 1%nat).
  - reflexivity.
  - reflexivity.
  - intros j _. do 3 (destruct j as [|j]; [vm_compute; discriminate|]).
    vm_compute. discriminate.
Defined.

Example least_response_time_picks_fresh :
  LeastResponseTime.pickServer LeastResponseTime.up_net
    {| LeastResponseTime.lb := LeastResponseTime.warm_lb;
       LeastResponseTime.clock := 0 |}
  = Ret (Some 1%nat,
         {| LeastResponseTime.lb := LeastResponseTime.warm_lb;
            LeastResponseTime.clock := 3 |}).
Proof. vm_compute. reflexivity. Qed.

Lemma least_response_time_all_dead (net : Network)
    (l : LeastResponseTime.loadBalancer) (t : nat)
    (o : LeastResponseTime.ForwardOutcome) (duration : Z) :
  (forall t a, probe_alive (net t a) = false) ->
  let w := {| LeastResponseTime.lb := l; LeastResponseTime.clock := t |} in
  let w' := {| LeastResponseTime.lb := l;
               LeastResponseTime.clock :=
                 t + length (LeastResponseTime.servers l) |} in
  LeastResponseTime.pickServer net w = Ret (None, w') /\
  LeastResponseTime.serveProxy net o duration w
  = Ret (HttpError StatusServiceUnavailable, w').
Proof.
  intros Hdead w w'.
  assert (Hpick : LeastResponseTime.pickServer net w = Ret (None, w')).
  { destruct (lrt_pickServer_scanned net l t) as (sel & min & Hrun & Hinv).
    destruct sel as [q|]; [|exact Hrun].
    cbn [LeastResponseTime.scanned] in Hinv. destruct Hinv as (_ & Hqa & _).
    unfold LeastResponseTime.alive_in_scan in Hqa.
    destruct (LeastResponseTime.servers l !! q); [|discriminate].
    rewrite Hdead in Hqa. discriminate. }
  split; [exact Hpick|].
  unfold LeastResponseTime.serveProxy, bind. rewrite Hpick. reflexivity.
Qed.

(** ** The picks that only read *)

(** C9: for every pool and every answer of the network, a call of the
    least-connections pick and a call of the least-response-time pick return
    and leave the balancer, hence the connections count, the total response
    time and the request count of every backend, exactly as they were; only
    the number of probes issued has changed. *)
Theorem C9_picks_leave_counters_unchanged :
  forall (net : Network),
    (forall w : LeastConnection.World,
        exists r w',
          LeastConnection.pickServer net w = Ret (r, w') /\
          LeastConnection.lb w' = LeastConnection.lb w /\
          forall i, LeastConnection.servers (LeastConnection.lb w') !! i
                    = LeastConnection.servers (LeastConnection.lb w) !! i) /\
    (forall w : LeastResponseTime.World,
        exists r w',
          LeastResponseTime.pickServer net w = Ret (r, w') /\
          LeastResponseTime.lb w' = LeastResponseTime.lb w /\
          forall i, LeastResponseTime.servers (LeastResponseTime.lb w') !! i
                    = LeastResponseTime.servers (LeastResponseTime.lb w) !! i).
Proof.
  intros net. split.
  - intros [l t].
    destruct (pickServer_scanned net l t) as (sel & min & Hrun & _).
    eexists _, _. split; [exact Hrun|]. split; reflexivity.
  - intros [l t].
    destruct (lrt_pickServer_scanned net l t) as (sel & min & Hrun & _).
    eexists _, _. split; [exact Hrun|]. split; reflexivity.
Qed.

(** ** The liveness probe *)

(** C8, as stated, fails on the success statuses other than 200: a backend
    that answers the GET without error and with 204 No Content is reported
    not alive. *)
Lemma C8_no_content_reported_dead :
  (exists code,
      SourceIPHash.no_content_net 0%nat "http://a.example" = GetResp code /\
      success_status code = true) /\
  SourceIPHash.IsAlive SourceIPHash.no_content_net
    (SourceIPHash.newSimpleServer "http://a.example") 0%nat
  = Ret (false, 1%nat).
Proof.
  split; [|reflexivity]. exists StatusNoContent. split; reflexivity.
Qed.

(** C8, amended: [IsAlive] issues one GET to the address of the backend and
    returns true exactly when the GET came back without error and with
    status 200 OK, the one status the code accepts; a true answer implies a
    2xx status, and a timeout, a connection error or a status outside 2xx
    gives false. *)
Theorem C8_IsAlive_true_iff_ok :
  forall (net : Network) (s : SourceIPHash.simpleServer) (t : nat),
    exists b,
      SourceIPHash.IsAlive net s t = Ret (b, S t) /\
      (b = true <-> net t (SourceIPHash.addr s) = GetResp StatusOK) /\
      (b = true ->
       exists code, net t (SourceIPHash.addr s) = GetResp code /\
                    success_status code = true) /\
      (net t (SourceIPHash.addr s) = GetErr TimeoutExceeded -> b = false) /\
      (net t (SourceIPHash.addr s) = GetErr ConnectionFailed -> b = false) /\
      (forall code, net t (SourceIPHash.addr s) = GetResp code ->
                    success_status code = false -> b = false).
Proof.
  intros net s t. unfold SourceIPHash.IsAlive.
  exists (probe_alive (net t (SourceIPHash.addr s))).
  split; [reflexivity|].
  destruct (net t (SourceIPHash.addr s)) as [e|code]; cbn [probe_alive].
  - repeat split; try discriminate; auto.
  - unfold StatusOK, success_status.
    destruct (code =? 200) eqn:E; cbn [negb].
    + apply Z.eqb_eq in E. subst code.
      repeat split; try discriminate; auto.
      * intros _. exists 200. split; reflexivity.
      * intros code [= <-]. discriminate.
    + apply Z.eqb_neq in E.
      repeat split; try discriminate; auto.
      intros [= ->]. contradiction.
Qed.

(** ** Round robin with every probe failing *)

Section RoundRobinAllDead.
Import RoundRobin.
Variable net : Network.
Hypothesis all_dead : forall t a, probe_alive (net t a) = false.
Variables (listen : string) (pool : list simpleServer) (start : Z).
Hypothesis start_in_range : 0 <= start < len pool.
Hypothesis pool_fits : len pool <= max_int.

Local Abbreviation world i t :=
  {| lb := {| port := listen; roundRobinIndex := i; servers := pool |};
     clock := t |}.

Local Abbreviation n := (len pool).

(** [r] backends are left to probe before the cursor is back where the call
    found it. *)
Lemma pick_loop_all_dead_rr (r : nat) :
  forall (fuel : nat) (t : nat),
    (1 <= r)%nat -> Z.of_nat r <= len pool -> (r <= fuel)%nat ->
    pick_loop net fuel start (world ((start + (len pool - Z.of_nat r)) mod len pool) t)
    = Ret (None, world start (t + r)%nat).
Proof.
  induction r as [|r IH]; intros fuel t Hr1 Hrn Hfuel; [lia|].
  destruct fuel as [|fuel]; [lia|].
  set (i := (start + (n - Z.of_nat (S r))) mod n).
  assert (Hi : 0 <= i < n) by (apply Z.mod_pos_bound; lia).
  rewrite rr_pick_loop_S.
  unfold bind at 1, get_lb at 1. cbn [lb roundRobinIndex servers].
  unfold bind at 1.
  destruct (go_rem_in_range (S := World) i n (world i t)) as [-> _]; [lia..|].
  rewrite Z.rem_small by lia.
  unfold bind at 1.
  destruct (index_in_range pool i (world i t) Hi) as (s & _ & ->).
  rewrite wrap_int_id by (unfold in_int, min_int, max_int in *; lia).
  unfold bind at 1.
  destruct (go_rem_in_range (S := World) (i + 1) n (world i t)) as [-> _];
    [lia..|].
  rewrite Z.rem_mod_nonneg by lia.
  unfold bind at 1, set_roundRobinIndex at 1.
  cbn [lb clock port servers].
  unfold bind at 1, IsAlive at 1. rewrite all_dead. cbn [lb clock].
  unfold bind at 1, get_lb at 1. cbn [lb roundRobinIndex].
  assert (Hnext : (i + 1) mod n = (start + (n - Z.of_nat r)) mod n).
  { unfold i. rewrite Zplus_mod_idemp_l. f_equal. lia. }
  rewrite Hnext.
  destruct r as [|r].
  - replace (start + (n - Z.of_nat 0)) with (start + 1 * n) by lia.
    rewrite Z.mod_add, Z.mod_small, Z.eqb_refl by lia.
    unfold ret. do 3 f_equal. lia.
  - assert (Hne : (start + (n - Z.of_nat (S r))) mod n <> start).
    { set (j := n - Z.of_nat (S r)).
      assert (Hj : 0 < j < n) by (unfold j; lia).
      destruct (Z_lt_le_dec (start + j) n) as [Hlt|Hge].
      - rewrite Z.mod_small by lia. lia.
      - replace (start + j) with (start + j - n + 1 * n) by lia.
        rewrite Z.mod_add, Z.mod_small by lia. lia. }
    apply Z.eqb_neq in Hne. rewrite Hne.
    rewrite IH by lia. do 3 f_equal. lia.
Qed.

End RoundRobinAllDead.

(** The sibling that gets it right: from any cursor inside a pool that fits
    an [int], the round-robin pick probes each backend once, returns nil and
    the dispatcher answers 503. *)
Lemma round_robin_all_dead (net : Network) (l : RoundRobin.loadBalancer)
    (t fuel : nat) :
  (forall t a, probe_alive (net t a) = false) ->
  0 <= RoundRobin.roundRobinIndex l < len (RoundRobin.servers l) ->
  len (RoundRobin.servers l) <= max_int ->
  (length (RoundRobin.servers l) <= fuel)%nat ->
  let w := {| RoundRobin.lb := l; RoundRobin.clock := t |} in
  let w' := {| RoundRobin.lb := l;
               RoundRobin.clock := t + length (RoundRobin.servers l) |} in
  RoundRobin.pickServer net fuel w = Ret (None, w') /\
  RoundRobin.serveProxy net fuel w
  = Ret (HttpError StatusServiceUnavailable, w').
Proof.
  intros Hdead Hidx Hfits Hfuel w w'.
  assert (Hpick : RoundRobin.pickServer net fuel w = Ret (None, w')).
  { destruct l as [p i srv]. cbn [RoundRobin.roundRobinIndex RoundRobin.servers] in *.
    unfold RoundRobin.pickServer, bind, RoundRobin.get_lb, w.
    cbn [RoundRobin.lb RoundRobin.roundRobinIndex].
    pose proof (pick_loop_all_dead_rr net Hdead p srv i Hidx Hfits
                  (length srv) fuel t) as H.
    unfold len in H at 2.
    replace (i + (Z.of_nat (length srv) - Z.of_nat (length srv))) with i in H by lia.
    rewrite Z.mod_small in H by exact Hidx.
    apply H; unfold len in *; lia. }
  split; [exact Hpick|].
  unfold RoundRobin.serveProxy, bind. rewrite Hpick. reflexivity.
Qed.

(** * Further properties of the balancers *)

(** ** Round robin: what a call returns *)

Lemma mod_wrap_cases (a n : Z) :
  0 <= a < 2 * n ->
  (a < n /\ a mod n = a) \/ (n <= a /\ a mod n = a - n).
Proof.
  intros Ha. destruct (Z_lt_le_dec a n) as [Hlt|Hge].
  - left. split; [exact Hlt|]. apply Z.mod_small. lia.
  - right. split; [exact Hge|].
    replace a with (a - n + 1 * n) at 1 by lia.
    rewrite Z.mod_add by lia. apply Z.mod_small. lia.
Qed.

Lemma first_true_or_none (P : nat -> bool) (b : nat) :
  (forall j, (j < b)%nat -> P j = false) \/
  (exists k, (k < b)%nat /\ P k = true /\ forall j, (j < k)%nat -> P j = false).
Proof.
  induction b as [|b IH].
  - left. intros j Hj. lia.
  - destruct IH as [Hnone|(k & Hk & Hpk & Hbefore)].
    + destruct (P b) eqn:Hb.
      * right. exists b. repeat split; [lia|exact Hb|exact Hnone].
      * left. intros j Hj. destruct (decide (j = b)) as [->|]; [exact Hb|].
        apply Hnone. lia.
    + right. exists k. repeat split; [lia|exact Hpk|exact Hbefore].
Qed.

Section RoundRobinCall.
Import RoundRobin.
Variable net : Network.
Variables (listen : string) (pool : list simpleServer) (start : Z) (t0 : nat).
Hypothesis start_in_range : 0 <= start < len pool.
Hypothesis pool_fits : len pool <= max_int.

Local Abbreviation n := (len pool).
Local Abbreviation l0 :=
  {| port := listen; roundRobinIndex := start; servers := pool |}.
Local Abbreviation world i t :=
  {| lb := {| port := listen; roundRobinIndex := i; servers := pool |};
     clock := t |}.
Local Abbreviation probe := (rr_probe net l0 t0).

(** One turn of the loop at the [m]-th backend after the starting cursor. *)
Lemma rr_turn (m fuel : nat) :
  (m < length pool)%nat ->
  pick_loop net (S fuel) start (world ((start + Z.of_nat m) mod n) (t0 + m))
  = if probe m
    then Ret (Some (Z.to_nat ((start + Z.of_nat m) mod n)),
              world ((start + Z.of_nat (S m)) mod n) (t0 + S m))
    else if (start + Z.of_nat (S m)) mod n =? start
         then Ret (None, world ((start + Z.of_nat (S m)) mod n) (t0 + S m))
         else pick_loop net fuel start
                (world ((start + Z.of_nat (S m)) mod n) (t0 + S m)).
Proof.
  intros Hm.
  set (i := (start + Z.of_nat m) mod n).
  assert (Hi : 0 <= i < n) by (apply Z.mod_pos_bound; lia).
  rewrite rr_pick_loop_S.
  unfold bind at 1, get_lb at 1. cbn [lb roundRobinIndex servers].
  unfold bind at 1.
  destruct (go_rem_in_range (S := World) i n (world i (t0 + m))) as [-> _];
    [lia..|].
  rewrite Z.rem_small by lia.
  unfold bind at 1.
  destruct (index_in_range pool i (world i (t0 + m)) Hi) as (s & Hs & ->).
  rewrite wrap_int_id by (unfold in_int, min_int, max_int in *; lia).
  unfold bind at 1.
  destruct (go_rem_in_range (S := World) (i + 1) n (world i (t0 + m)))
    as [-> _]; [lia..|].
  rewrite Z.rem_mod_nonneg by lia.
  assert (Hnext : (i + 1) mod n = (start + Z.of_nat (S m)) mod n).
  { unfold i. rewrite Zplus_mod_idemp_l. f_equal. lia. }
  rewrite Hnext.
  unfold bind at 1, set_roundRobinIndex at 1.
  cbn [lb clock port servers].
  unfold bind at 1, IsAlive at 1. cbn [lb clock].
  assert (Hprobe : probe m = probe_alive (net (t0 + m)%nat (addr s))).
  { unfold rr_probe. cbn [servers roundRobinIndex]. fold i. rewrite Hs.
    reflexivity. }
  rewrite <- Hprobe.
  replace (S (t0 + m)) with (t0 + S m)%nat by lia.
  destruct (probe m); [reflexivity|].
  unfold bind at 1, get_lb at 1. cbn [lb roundRobinIndex].
  destruct (_ =? start); reflexivity.
Qed.

(** Before a full cycle the cursor is not back at its start. *)
Lemma rr_not_back (m : nat) :
  (S m < length pool)%nat -> (start + Z.of_nat (S m)) mod n <> start.
Proof.
  intros Hm. unfold len in *.
  destruct (mod_wrap_cases (start + Z.of_nat (S m)) (Z.of_nat (length pool)))
    as [[_ ->]|[_ ->]]; lia.
Qed.

Lemma rr_back (m : nat) :
  S m = length pool -> (start + Z.of_nat (S m)) mod n = start.
Proof.
  intros Hm. unfold len in *. rewrite Hm.
  replace (start + Z.of_nat (length pool))
    with (start + 1 * Z.of_nat (length pool)) by lia.
  rewrite Z.mod_add by lia. apply Z.mod_small. lia.
Qed.

Lemma rr_loop_first_alive (k : nat) :
  forall (m fuel : nat),
    (m + k < length pool)%nat -> (k < fuel)%nat ->
    (forall j, (j < k)%nat -> probe (m + j) = false) ->
    probe (m + k) = true ->
    pick_loop net fuel start (world ((start + Z.of_nat m) mod n) (t0 + m))
    = Ret (Some (Z.to_nat ((start + Z.of_nat (m + k)) mod n)),
           world ((start + Z.of_nat (S (m + k))) mod n) (t0 + S (m + k))).
Proof.
  induction k as [|k IH]; intros m fuel Hmk Hfuel Hdead Halive.
  - destruct fuel as [|fuel]; [lia|].
    rewrite rr_turn by lia. rewrite Nat.add_0_r in *. rewrite Halive.
    reflexivity.
  - destruct fuel as [|fuel]; [lia|].
    rewrite rr_turn by lia.
    pose proof (Hdead 0%nat ltac:(lia)) as Hm. rewrite Nat.add_0_r in Hm.
    rewrite Hm.
    pose proof (rr_not_back m ltac:(lia)) as Hne.
    apply Z.eqb_neq in Hne. rewrite Hne.
    replace (m + S k)%nat with (S m + k)%nat by lia.
    apply IH; [lia|lia| |].
    + intros j Hj. replace (S m + j)%nat with (m + S j)%nat by lia.
      apply Hdead. lia.
    + replace (S m + k)%nat with (m + S k)%nat by lia. exact Halive.
Qed.

Lemma rr_loop_none (r : nat) :
  forall (m fuel : nat),
    (m + r = length pool)%nat -> (1 <= r)%nat -> (r <= fuel)%nat ->
    (forall j, (j < r)%nat -> probe (m + j) = false) ->
    pick_loop net fuel start (world ((start + Z.of_nat m) mod n) (t0 + m))
    = Ret (None, world start (t0 + length pool)).
Proof.
  induction r as [|r IH]; intros m fuel Hmr Hr Hfuel Hdead; [lia|].
  destruct fuel as [|fuel]; [lia|].
  rewrite rr_turn by lia.
  pose proof (Hdead 0%nat ltac:(lia)) as Hm. rewrite Nat.add_0_r in Hm.
  rewrite Hm.
  destruct r as [|r].
  - rewrite rr_back by lia. rewrite Z.eqb_refl.
    do 3 f_equal. lia.
  - pose proof (rr_not_back m ltac:(lia)) as Hne.
    apply Z.eqb_neq in Hne. rewrite Hne.
    apply IH; [lia|lia|lia|].
    intros j Hj. replace (S m + j)%nat with (m + S j)%nat by lia.
    apply Hdead. lia.
Qed.

Lemma rr_pickServer_loop (fuel : nat) :
  pickServer net fuel (world start t0)
  = pick_loop net fuel start
      (world ((start + Z.of_nat 0) mod n) (t0 + 0)).
Proof.
  unfold pickServer, bind, get_lb. cbn [lb roundRobinIndex].
  rewrite Z.add_0_r, Z.mod_small, Nat.add_0_r by exact start_in_range.
  reflexivity.
Qed.

End RoundRobinCall.

(** The two ways a call ends. *)
Lemma rr_pick_cases :
  forall (net : Network) (l : RoundRobin.loadBalancer) (t fuel : nat),
    0 <= RoundRobin.roundRobinIndex l < len (RoundRobin.servers l) ->
    len (RoundRobin.servers l) <= max_int ->
    (length (RoundRobin.servers l) <= fuel)%nat ->
    (forall k,
        (k < length (RoundRobin.servers l))%nat ->
        rr_probe net l t k = true ->
        (forall j, (j < k)%nat -> rr_probe net l t j = false) ->
        RoundRobin.pickServer net fuel
          {| RoundRobin.lb := l; RoundRobin.clock := t |}
        = Ret (Some (Z.to_nat ((RoundRobin.roundRobinIndex l + Z.of_nat k)
                               mod len (RoundRobin.servers l))),
               {| RoundRobin.lb :=
                    rr_with_cursor l
                      ((RoundRobin.roundRobinIndex l + Z.of_nat (S k))
                       mod len (RoundRobin.servers l));
                  RoundRobin.clock := t + S k |})) /\
    ((forall j, (j < length (RoundRobin.servers l))%nat ->
                rr_probe net l t j = false) ->
     RoundRobin.pickServer net fuel
       {| RoundRobin.lb := l; RoundRobin.clock := t |}
     = Ret (None,
            {| RoundRobin.lb := l;
               RoundRobin.clock := t + length (RoundRobin.servers l) |})).
Proof.
  intros net [p i srv] t fuel Hi Hfits Hfuel.
  cbn [RoundRobin.roundRobinIndex RoundRobin.servers] in *.
  split.
  - intros k Hk Halive Hdead.
    rewrite (rr_pickServer_loop net p srv i t Hi).
    apply (rr_loop_first_alive net p srv i t Hi Hfits k 0 fuel);
      [lia|lia|exact Hdead|exact Halive].
  - intros Hdead.
    rewrite (rr_pickServer_loop net p srv i t Hi).
    apply (rr_loop_none net p srv i t Hi Hfits (length srv) 0 fuel);
      [lia|unfold len in *; lia|lia|exact Hdead].
Qed.

(** A call of the round-robin pick, from a cursor inside a pool that fits an
    [int] and with at least one loop turn per backend: it returns the first
    backend, in cyclic order from the cursor, whose probe succeeds, having
    probed the backends before it once each, and leaves the cursor one place
    after the backend returned; it returns nil, after one probe per backend
    and with the cursor where it was, when all these probes fail. *)
Theorem rr_pick_first_alive_from_cursor :
  forall (net : Network) (l : RoundRobin.loadBalancer) (t fuel : nat),
    0 <= RoundRobin.roundRobinIndex l < len (RoundRobin.servers l) ->
    len (RoundRobin.servers l) <= max_int ->
    (length (RoundRobin.servers l) <= fuel)%nat ->
    (forall k,
        (k < length (RoundRobin.servers l))%nat ->
        rr_probe net l t k = true ->
        (forall j, (j < k)%nat -> rr_probe net l t j = false) ->
        RoundRobin.pickServer net fuel
          {| RoundRobin.lb := l; RoundRobin.clock := t |}
        = Ret (Some (Z.to_nat ((RoundRobin.roundRobinIndex l + Z.of_nat k)
                               mod len (RoundRobin.servers l))),
               {| RoundRobin.lb :=
                    rr_with_cursor l
                      ((RoundRobin.roundRobinIndex l + Z.of_nat (S k))
                       mod len (RoundRobin.servers l));
                  RoundRobin.clock := t + S k |})) /\
    ((forall j, (j < length (RoundRobin.servers l))%nat ->
                rr_probe net l t j = false) ->
     RoundRobin.pickServer net fuel
       {| RoundRobin.lb := l; RoundRobin.clock := t |}
     = Ret (None,
            {| RoundRobin.lb := l;
               RoundRobin.clock := t + length (RoundRobin.servers l) |})).
Proof. exact rr_pick_cases. Qed.

Lemma rr_pick_first_alive_from_cursor_witness :
  RoundRobin.pickServer RoundRobin.c_down_net 3
    (RoundRobin.at_cursor "8000" "http://a.example" "http://b.example"
       "http://c.example" 2 7)
  = Ret (Some 0%nat,
         RoundRobin.at_cursor "8000" "http://a.example" "http://b.example"
           "http://c.example" 1 9).
Proof.
  refine (proj1 (rr_pick_first_alive_from_cursor RoundRobin.c_down_net
                   (RoundRobin.lb
                      (RoundRobin.at_cursor "8000" "http://a.example"
                         "http://b.example" "http://c.example" 2 7))
                   7 3 _ _ _) 1%nat _ _ _).
  - vm_compute. split; [discriminate|reflexivity].
  - vm_compute. discriminate.
  - vm_compute. lia.
  - vm_compute. lia.
  - reflexivity.
  - intros j Hj. assert (j = 0%nat) as -> by lia. reflexivity.
Defined.

(** Whatever the network answers, a call of the round-robin pick from a
    cursor inside a pool that fits an [int] returns after at least one and at
    most one probe per backend: it neither panics nor keeps looping, it
    leaves the pool as it was and the cursor inside the pool, and a backend
    it returns is a position of the pool. *)
Theorem rr_pick_returns_within_one_cycle :
  forall (net : Network) (l : RoundRobin.loadBalancer) (t fuel : nat),
    0 <= RoundRobin.roundRobinIndex l < len (RoundRobin.servers l) ->
    len (RoundRobin.servers l) <= max_int ->
    (length (RoundRobin.servers l) <= fuel)%nat ->
    exists r w',
      RoundRobin.pickServer net fuel
        {| RoundRobin.lb := l; RoundRobin.clock := t |} = Ret (r, w') /\
      RoundRobin.servers (RoundRobin.lb w') = RoundRobin.servers l /\
      0 <= RoundRobin.roundRobinIndex (RoundRobin.lb w')
        < len (RoundRobin.servers l) /\
      (t < RoundRobin.clock w' <= t + length (RoundRobin.servers l))%nat /\
      match r with
      | Some q => (q < length (RoundRobin.servers l))%nat
      | None => RoundRobin.clock w' = (t + length (RoundRobin.servers l))%nat
      end.
Proof.
  intros net l t fuel Hi Hfits Hfuel.
  destruct (rr_pick_cases net l t fuel Hi Hfits Hfuel) as [Hsome Hnone].
  assert (Hn : 0 < len (RoundRobin.servers l)) by lia.
  destruct (first_true_or_none (rr_probe net l t)
              (length (RoundRobin.servers l)))
    as [Hdead|(k & Hk & Halive & Hdead)].
  - eexists _, _. split; [apply Hnone, Hdead|].
    cbn [RoundRobin.lb RoundRobin.clock]. unfold len in *.
    repeat split; try lia.
  - eexists _, _. split; [apply (Hsome k Hk Halive Hdead)|].
    cbn [RoundRobin.lb RoundRobin.clock rr_with_cursor
         RoundRobin.servers RoundRobin.roundRobinIndex].
    pose proof (Z.mod_pos_bound
                  (RoundRobin.roundRobinIndex l + Z.of_nat k)
                  (len (RoundRobin.servers l)) Hn).
    pose proof (Z.mod_pos_bound
                  (RoundRobin.roundRobinIndex l + Z.of_nat (S k))
                  (len (RoundRobin.servers l)) Hn).
    unfold len in *. repeat split; try lia.
Qed.

Lemma rr_pick_returns_within_one_cycle_witness :
  exists r w',
    RoundRobin.pickServer RoundRobin.c_down_net 3
      (RoundRobin.at_cursor "8000" "http://a.example" "http://b.example"
         "http://c.example" 2 0) = Ret (r, w') /\
    RoundRobin.servers (RoundRobin.lb w')
    = RoundRobin.three_servers "http://a.example" "http://b.example"
        "http://c.example" /\
    0 <= RoundRobin.roundRobinIndex (RoundRobin.lb w') < 3 /\
    (0 < RoundRobin.clock w' <= 3)%nat /\
    match r with
    | Some q => (q < 3)%nat
    | None => RoundRobin.clock w' = 3%nat
    end.
Proof.
  apply (rr_pick_returns_within_one_cycle RoundRobin.c_down_net
           (RoundRobin.lb
              (RoundRobin.at_cursor "8000" "http://a.example"
                 "http://b.example" "http://c.example" 2 0)) 0 3).
  - vm_compute. split; [discriminate|reflexivity].
  - vm_compute. discriminate.
  - vm_compute. lia.
Defined.

(** ** Round robin: the rotation over a pool that answers *)

Lemma rr_with_cursor_same (l : RoundRobin.loadBalancer) :
  rr_with_cursor l (RoundRobin.roundRobinIndex l) = l.
Proof. destruct l. reflexivity. Qed.

Lemma rr_picks_all_alive (net : Network) (fuel : nat) :
  (forall t a, probe_alive (net t a) = true) ->
  forall (m : nat) (l : RoundRobin.loadBalancer) (t : nat),
    0 <= RoundRobin.roundRobinIndex l < len (RoundRobin.servers l) ->
    len (RoundRobin.servers l) <= max_int ->
    RoundRobin.picks net (S fuel) m
      {| RoundRobin.lb := l; RoundRobin.clock := t |}
    = Ret (map (fun k => Some (Z.to_nat ((RoundRobin.roundRobinIndex l
                                          + Z.of_nat k)
                                         mod len (RoundRobin.servers l))))
             (seq 0 m),
           {| RoundRobin.lb :=
                rr_with_cursor l
                  ((RoundRobin.roundRobinIndex l + Z.of_nat m)
                   mod len (RoundRobin.servers l));
              RoundRobin.clock := t + m |}).
Proof.
  intros Hup. induction m as [|m IH]; intros l t Hi Hfits.
  - cbn [RoundRobin.picks seq map]. unfold ret.
    rewrite Z.add_0_r, Z.mod_small, rr_with_cursor_same, Nat.add_0_r
      by exact Hi.
    reflexivity.
  - cbn [RoundRobin.picks]. unfold bind at 1.
    destruct l as [p i srv].
    cbn [RoundRobin.roundRobinIndex RoundRobin.servers] in *.
    rewrite (rr_pickServer_loop net p srv i t Hi).
    rewrite (rr_loop_first_alive net p srv i t Hi Hfits 0 0 (S fuel));
      [|unfold len in *; lia|lia|intros j Hj; lia|].
    2:{ unfold rr_probe. cbn [RoundRobin.servers RoundRobin.roundRobinIndex].
        destruct (srv !! _) eqn:E; [apply Hup|].
        apply lookup_ge_None in E.
        pose proof (Z.mod_pos_bound (i + Z.of_nat (0 + 0)) (len srv)
                      ltac:(lia)).
        unfold len in *. lia. }
    unfold bind at 1.
    set (i' := (i + Z.of_nat (S (0 + 0))) mod len srv).
    assert (Hi' : 0 <= i' < len srv) by (apply Z.mod_pos_bound; lia).
    specialize (IH (RoundRobin.Build_loadBalancer p i' srv) (t + S (0 + 0))%nat).
    cbn [RoundRobin.roundRobinIndex RoundRobin.servers] in IH.
    rewrite (IH Hi' Hfits). unfold ret.
    cbn [seq map]. rewrite <- seq_shift, map_map.
    f_equal. f_equal.
    + f_equal.
      apply map_ext. intros k. f_equal. f_equal.
      unfold i'. rewrite Zplus_mod_idemp_l. f_equal. lia.
    + unfold rr_with_cursor.
      cbn [RoundRobin.port RoundRobin.servers]. f_equal; [|lia].
      f_equal. unfold i'. rewrite Zplus_mod_idemp_l. f_equal. lia.
Qed.



(** ** Source-IP hash: what a call returns *)

Section SourceIPHashCall.
Import SourceIPHash.
Variable net : Network.
Variable l : loadBalancer.
Variables (ip : string) (t0 : nat).
Hypothesis pool_not_empty : servers l <> [].

Local Abbreviation n := (len (servers l)).
Local Abbreviation probe := (sih_probe net l ip t0).

Lemma sih_turn (m fuel : nat) :
  probe_loop net l (S fuel) ((hashIP ip + Z.of_nat m) mod n) (t0 + m)%nat
  = if probe m
    then Ret ((hashIP ip + Z.of_nat m) mod n, (t0 + S m)%nat)
    else probe_loop net l fuel ((hashIP ip + Z.of_nat (S m)) mod n)
           (t0 + S m)%nat.
Proof.
  pose proof (len_pos (servers l) pool_not_empty) as Hn.
  set (i := (hashIP ip + Z.of_nat m) mod n).
  assert (Hi : 0 <= i < n) by (apply Z.mod_pos_bound; exact Hn).
  cbn [probe_loop]. unfold bind at 1.
  destruct (index_in_range (S := World) (servers l) i (t0 + m)%nat Hi)
    as (s & Hs & ->).
  unfold bind at 1, IsAlive at 1.
  assert (Hprobe : probe m = probe_alive (net (t0 + m)%nat (addr s))).
  { unfold sih_probe. fold i. rewrite Hs. reflexivity. }
  rewrite <- Hprobe.
  replace (S (t0 + m)) with (t0 + S m)%nat by lia.
  destruct (probe m); cbn [negb]; [reflexivity|].
  unfold bind at 1.
  destruct (go_rem_in_range (S := World) (i + 1) n (t0 + S m)%nat)
    as [-> _]; [lia..|].
  rewrite Z.rem_mod_nonneg by lia.
  assert (Hnext : (i + 1) mod n = (hashIP ip + Z.of_nat (S m)) mod n).
  { unfold i. rewrite Zplus_mod_idemp_l. f_equal. lia. }
  rewrite Hnext. reflexivity.
Qed.

Lemma sih_loop_first_alive (k : nat) :
  forall (m fuel : nat),
    (k < fuel)%nat ->
    (forall j, (j < k)%nat -> probe (m + j) = false) ->
    probe (m + k) = true ->
    probe_loop net l fuel ((hashIP ip + Z.of_nat m) mod n) (t0 + m)%nat
    = Ret ((hashIP ip + Z.of_nat (m + k)) mod n, (t0 + S (m + k))%nat).
Proof.
  induction k as [|k IH]; intros m fuel Hfuel Hdead Halive.
  - destruct fuel as [|fuel]; [lia|].
    rewrite sih_turn. rewrite Nat.add_0_r in *. rewrite Halive. reflexivity.
  - destruct fuel as [|fuel]; [lia|].
    rewrite sih_turn.
    pose proof (Hdead 0%nat ltac:(lia)) as Hm. rewrite Nat.add_0_r in Hm.
    rewrite Hm.
    replace (m + S k)%nat with (S m + k)%nat by lia.
    apply IH; [lia| |].
    + intros j Hj. replace (S m + j)%nat with (m + S j)%nat by lia.
      apply Hdead. lia.
    + replace (S m + k)%nat with (m + S k)%nat by lia. exact Halive.
Qed.

End SourceIPHashCall.

(** A call of the source-IP-hash pick over a non-empty pool returns the
    first backend, in cyclic order from position [hashIP(ip) mod len], whose
    probe succeeds, after one probe of each backend tried before it; in
    particular the backend at the hashed position itself whenever it answers
    its probe, after that single probe. *)
Theorem sih_pick_first_alive_from_hash :
  forall (net : Network) (l : SourceIPHash.loadBalancer) (ip : string)
         (t fuel k : nat),
    SourceIPHash.servers l <> [] ->
    (k < fuel)%nat ->
    sih_probe net l ip t k = true ->
    (forall j, (j < k)%nat -> sih_probe net l ip t j = false) ->
    SourceIPHash.pickServer net l fuel ip t
    = Ret (Some (Z.to_nat ((hashIP ip + Z.of_nat k)
                           mod len (SourceIPHash.servers l))),
           (t + S k)%nat).
Proof.
  intros net l ip t fuel k Hne Hfuel Halive Hdead.
  pose proof (len_pos (SourceIPHash.servers l) Hne) as Hn.
  unfold SourceIPHash.pickServer. unfold bind at 1.
  destruct (startIndex_in_range l ip t Hne) as [-> _].
  rewrite Z.rem_mod_nonneg by (pose proof (hashIP_range ip); lia).
  unfold bind at 1.
  pose proof (sih_loop_first_alive net l ip t Hne k 0 fuel Hfuel Hdead Halive)
    as Hloop.
  rewrite Z.add_0_r, Nat.add_0_r in Hloop. cbn [Nat.add] in Hloop.
  rewrite Hloop.
  unfold bind at 1.
  destruct (index_in_range (S := SourceIPHash.World)
              (SourceIPHash.servers l)
              ((hashIP ip + Z.of_nat k) mod len (SourceIPHash.servers l))
              (t + S k)%nat) as (s & _ & ->);
    [apply Z.mod_pos_bound; exact Hn|].
  reflexivity.
Qed.

Lemma sih_pick_first_alive_from_hash_witness :
  SourceIPHash.pickServer SourceIPHash.flaky_net SourceIPHash.flaky_pool
    5 "10.0.0.1:5000" 0%nat
  = Ret (Some 0%nat, 2%nat).
Proof.
  apply (sih_pick_first_alive_from_hash SourceIPHash.flaky_net
           SourceIPHash.flaky_pool "10.0.0.1:5000" 0 5 1).
  - discriminate.
  - lia.
  - vm_compute. reflexivity.
  - intros j Hj. assert (j = 0%nat) as -> by lia. vm_compute. reflexivity.
Defined.

(** ** Weighted round robin: the largest weight and the safety of a call *)

Lemma maxWeight_fold (servers : list WeightedRoundRobin.simpleServer) :
  forall acc,
    acc <= fold_left
             (fun max server =>
                if WeightedRoundRobin.Weight server >? max
                then WeightedRoundRobin.Weight server else max)
             servers acc /\
    (forall s, In s servers ->
       WeightedRoundRobin.weight s
       <= fold_left
            (fun max server =>
               if WeightedRoundRobin.Weight server >? max
               then WeightedRoundRobin.Weight server else max)
            servers acc) /\
    (fold_left
       (fun max server =>
          if WeightedRoundRobin.Weight server >? max
          then WeightedRoundRobin.Weight server else max)
       servers acc = acc \/
     exists s, In s servers /\
       WeightedRoundRobin.weight s
       = fold_left
           (fun max server =>
              if WeightedRoundRobin.Weight server >? max
              then WeightedRoundRobin.Weight server else max)
           servers acc).
Proof.
  induction servers as [|s0 servers IH]; intros acc; cbn [fold_left].
  - repeat split; [lia|intros s []|left; reflexivity].
  - change (WeightedRoundRobin.Weight s0) with (WeightedRoundRobin.weight s0).
    destruct (Z.gtb_spec (WeightedRoundRobin.weight s0) acc) as [Hgt|Hle0].
    + destruct (IH (WeightedRoundRobin.weight s0)) as (Hle & Hall & Hatt).
      split; [lia|]. split.
      * intros s [<-|Hs]; [exact Hle|apply Hall, Hs].
      * right. destruct Hatt as [Heq|(s & Hs & Hw)].
        -- exists s0. split; [left; reflexivity|]. symmetry. exact Heq.
        -- exists s. split; [right; exact Hs|exact Hw].
    + destruct (IH acc) as (Hle & Hall & Hatt).
      split; [exact Hle|]. split.
      * intros s [<-|Hs]; [lia|apply Hall, Hs].
      * destruct Hatt as [Heq|(s & Hs & Hw)]; [left; exact Heq|].
        right. exists s. split; [right; exact Hs|exact Hw].
Qed.

(** [maxWeight] is never negative and bounds every weight of the pool; it is
    the weight of some backend unless it is 0, and it is 0 for an empty pool
    and for a pool without a positive weight. *)
Theorem maxWeight_largest_or_zero :
  forall (servers : list WeightedRoundRobin.simpleServer),
    0 <= WeightedRoundRobin.maxWeight servers /\
    (forall s, In s servers ->
               WeightedRoundRobin.weight s
               <= WeightedRoundRobin.maxWeight servers) /\
    (WeightedRoundRobin.maxWeight servers = 0 \/
     exists s, In s servers /\
               WeightedRoundRobin.weight s
               = WeightedRoundRobin.maxWeight servers) /\
    ((forall s, In s servers -> WeightedRoundRobin.weight s <= 0) ->
     WeightedRoundRobin.maxWeight servers = 0).
Proof.
  intros servers. unfold WeightedRoundRobin.maxWeight.
  destruct (maxWeight_fold servers 0) as (Hle & Hall & Hatt).
  repeat split; [exact Hle|exact Hall|exact Hatt|].
  intros Hneg. destruct Hatt as [Heq|(s & Hs & Hw)]; [exact Heq|].
  specialize (Hneg s Hs). lia.
Qed.

Section WeightedCall.
Import WeightedRoundRobin.
Variable net : Network.

(** The block run when the cursor wraps: it leaves everything but the
    current weight, reports the pool down only when no weight is positive,
    and otherwise leaves a current weight of at least 1. *)
Lemma next_weight_spec (l : loadBalancer) (t : nat) :
  exists down cw,
    next_weight {| lb := l; clock := t |}
    = Ret (down, {| lb := {| port := port l; currentWeight := cw;
                             currentServer := currentServer l;
                             servers := servers l;
                             weightCounters := weightCounters l |};
                    clock := t |}) /\
    (down = true -> maxWeight (servers l) = 0) /\
    (down = false -> 1 <= cw).
Proof.
  destruct l as [p cw cs srv wcs]. unfold next_weight.
  cbv [bind get_lb set_currentWeight lb clock port currentWeight currentServer
       servers weightCounters].
  destruct (wrap_int (cw - 1) <=? 0) eqn:E.
  - destruct (maxWeight srv =? 0) eqn:E0.
    + eexists true, _. split; [reflexivity|]. split; [|discriminate].
      intros _. apply Z.eqb_eq, E0.
    + eexists false, _. split; [reflexivity|]. split; [discriminate|].
      intros _. apply Z.eqb_neq in E0.
      pose proof (maxWeight_fold srv 0) as [H0 _]. unfold maxWeight in *. lia.
  - eexists false, _. split; [reflexivity|]. split; [discriminate|].
    intros _. apply Z.leb_gt in E. lia.
Qed.

Lemma wrr_pick_loop_safe (fuel : nat) :
  forall (l : loadBalancer) (t : nat),
    wrr_wf l ->
    match pick_loop net fuel {| lb := l; clock := t |} with
    | Panic => False
    | OutOfFuel => True
    | Ret (r, w') =>
        wrr_wf (lb w') /\
        servers (lb w') = servers l /\
        (t <= clock w')%nat /\
        match r with
        | Some q =>
            currentServer (lb w') = Z.of_nat q /\
            (1 <= currentWeight l -> 1 <= currentWeight (lb w')) /\
            exists s,
              servers l !! q = Some s /\
              currentWeight (lb w') <= weight s /\
              probe_alive (net (Nat.pred (clock w')) (addr s)) = true /\
              (t < clock w')%nat
        | None => maxWeight (servers l) = 0
        end
    end.
Proof.
  induction fuel as [|fuel IH]; intros l t Hwf; [exact I|].
  destruct l as [p cw cs srv wcs]. destruct Hwf as (Hcs & Hfits & Hwcs).
  cbn [currentServer servers weightCounters currentWeight] in *.
  rewrite wrr_pick_loop_S.
  unfold bind at 1, get_lb at 1. cbn [lb currentServer servers].
  rewrite wrap_int_id by (unfold in_int, min_int, max_int in *; lia).
  unfold bind at 1.
  destruct (go_rem_in_range (S := World) (cs + 1) (len srv)
              {| lb := Build_loadBalancer p cw cs srv wcs; clock := t |})
    as [-> Hr]; [lia..|].
  set (cs' := Z.rem (cs + 1) (len srv)) in *.
  unfold bind at 1, set_currentServer at 1.
  cbn [lb clock port currentWeight currentServer servers weightCounters].
  unfold bind at 1, get_lb at 1. cbn [lb currentServer].
  assert (Hdown : exists down cw',
    (if cs' =? 0 then next_weight else ret false)
      {| lb := Build_loadBalancer p cw cs' srv wcs; clock := t |}
    = Ret (down, {| lb := Build_loadBalancer p cw' cs' srv wcs; clock := t |})
    /\ (down = true -> maxWeight srv = 0)
    /\ (down = false -> 1 <= cw -> 1 <= cw')).
  { destruct (cs' =? 0).
    - destruct (next_weight_spec (Build_loadBalancer p cw cs' srv wcs) t)
        as (down & cw' & Hrun & Htrue & Hfalse).
      exists down, cw'. cbn in Hrun, Htrue. auto.
    - exists false, cw. split; [reflexivity|]. split; [discriminate|auto]. }
  destruct Hdown as (down & cw' & Hrun & Htrue & Hfloor).
  unfold bind at 1. rewrite Hrun.
  assert (Hwf' : wrr_wf (Build_loadBalancer p cw' cs' srv wcs))
    by (repeat split; cbn; try lia; exact Hwcs).
  destruct down.
  { cbn [ret lb clock servers]. split; [exact Hwf'|]. split; [reflexivity|].
    split; [lia|]. apply Htrue. reflexivity. }
  unfold bind at 1, get_lb at 1. cbn [lb currentServer weightCounters].
  unfold bind at 1.
  destruct (index_in_range wcs cs'
              {| lb := Build_loadBalancer p cw' cs' srv wcs; clock := t |})
    as (counter & Hcounter & ->);
    [rewrite Hwcs; unfold len in *; rewrite length_map; lia|].
  cbn [lb currentWeight servers currentServer].
  (* the turn goes on: the results of the rest of the loop are results of
     the call *)
  assert (Hrest : forall t',
    (t <= t')%nat ->
    match pick_loop net fuel
            {| lb := Build_loadBalancer p cw' cs' srv wcs; clock := t' |} with
    | Panic => False
    | OutOfFuel => True
    | Ret (r, w') =>
        wrr_wf (lb w') /\
        servers (lb w') = srv /\
        (t <= clock w')%nat /\
        match r with
        | Some q =>
            currentServer (lb w') = Z.of_nat q /\
            (1 <= cw -> 1 <= currentWeight (lb w')) /\
            exists s,
              srv !! q = Some s /\
              currentWeight (lb w') <= weight s /\
              probe_alive (net (Nat.pred (clock w')) (addr s)) = true /\
              (t < clock w')%nat
        | None => maxWeight srv = 0
        end
    end).
  { intros t' Ht'.
    specialize (IH (Build_loadBalancer p cw' cs' srv wcs) t' Hwf').
    destruct (pick_loop net fuel _) as [[r w']| |]; [|exact IH|exact I].
    cbn [servers currentWeight] in IH.
    destruct IH as (Hw & Hs & Hc & Hr').
    split; [exact Hw|]. split; [exact Hs|]. split; [lia|].
    destruct r as [q|]; [|exact Hr'].
    destruct Hr' as (Hq & Hfl & s & Hsq & Hws & Hp & Hlt).
    split; [exact Hq|]. split; [intros H1; apply Hfl, Hfloor; auto|].
    exists s. repeat split; [exact Hsq|exact Hws|exact Hp|lia]. }
  destruct (counter >=? cw') eqn:Hcmp; [|apply Hrest; lia].
  unfold bind at 1.
  destruct (index_in_range srv cs'
              {| lb := Build_loadBalancer p cw' cs' srv wcs; clock := t |})
    as (s & Hs & ->); [exact Hr|].
  unfold bind at 1, IsAlive at 1. cbn [lb clock].
  destruct (probe_alive (net t (addr s))) eqn:Halive; [|apply Hrest; lia].
  cbn [ret lb clock servers currentServer currentWeight].
  split; [exact Hwf'|]. split; [reflexivity|]. split; [lia|].
  split; [rewrite Z2Nat.id by lia; reflexivity|].
  split; [apply Hfloor; reflexivity|].
  exists s. split; [exact Hs|]. split; [|split; [exact Halive|lia]].
  rewrite Hwcs in Hcounter.
  change (map Weight srv) with (Weight <$> srv) in Hcounter.
  rewrite list_lookup_fmap, Hs in Hcounter. injection Hcounter as <-.
  unfold Weight in Hcmp.
  destruct (Z.geb_spec (weight s) cw'); [lia|discriminate].
Qed.

End WeightedCall.


(** The state built by [newLoadBalancer] over a non-empty pool that fits an
    [int] is such a state. *)
Lemma newLoadBalancer_wf (listen : string)
    (servers : list WeightedRoundRobin.simpleServer) :
  servers <> [] -> len servers <= max_int ->
  wrr_wf (WeightedRoundRobin.newLoadBalancer listen servers).
Proof.
  intros Hne Hfits. unfold wrr_wf. cbn.
  pose proof (len_pos servers Hne). repeat split; [lia..|exact Hfits].
Qed.


(** ** Least connections: the dispatcher *)

Lemma lc_dec_inc (s : LeastConnection.simpleServer) :
  in_int (LeastConnection.connections s) ->
  LeastConnection.DecrementConnection (LeastConnection.IncrementConnection s)
  = s.
Proof.
  intros Hs. destruct s as [a c]. unfold LeastConnection.DecrementConnection,
    LeastConnection.IncrementConnection. cbn in *. f_equal.
  replace (wrap_int (c + 1) - 1) with (wrap_int (c + 1) + -1) by lia.
  rewrite wrap_int_add. replace (c + 1 + -1) with c by lia.
  apply wrap_int_id, Hs.
Qed.

(** A forward that has ended, well or not, leaves the balancer as it was. *)
Lemma lc_Serve_restores (l : LeastConnection.loadBalancer) (t p : nat)
    (s : LeastConnection.simpleServer) (o : LeastConnection.ForwardOutcome) :
  LeastConnection.servers l !! p = Some s ->
  in_int (LeastConnection.connections s) ->
  LeastConnection.Serve p o
    {| LeastConnection.lb := l; LeastConnection.clock := t |}
  = Ret (o, {| LeastConnection.lb := l; LeastConnection.clock := t |}).
Proof.
  intros Hp Hs. destruct l as [prt srv]. cbn [LeastConnection.servers] in Hp.
  unfold LeastConnection.Serve.
  unfold bind at 1, LeastConnection.update_server at 1.
  cbn [LeastConnection.lb LeastConnection.servers LeastConnection.port
       LeastConnection.clock].
  rewrite Hp.
  unfold bind at 1, LeastConnection.update_server at 1.
  cbn [LeastConnection.lb LeastConnection.servers LeastConnection.port
       LeastConnection.clock].
  rewrite list_lookup_insert_eq by (apply lookup_lt_Some in Hp; exact Hp).
  rewrite list_insert_insert_eq, lc_dec_inc by exact Hs.
  rewrite list_insert_id by exact Hp. reflexivity.
Qed.

(** The least-connections dispatcher over a pool whose counters hold
    [int]s: the request gets 503 exactly when the pick returns nil and is
    otherwise forwarded to the backend picked; in both cases one probe per
    backend has been issued, and once the forward has ended, whatever its
    outcome, the balancer and all its counters are as before the request. *)
Theorem lc_serveProxy_forwards_to_pick :
  forall (net : Network) (l : LeastConnection.loadBalancer) (t : nat)
         (o : LeastConnection.ForwardOutcome),
    (forall p s, LeastConnection.servers l !! p = Some s ->
                 in_int (LeastConnection.connections s)) ->
    exists sel,
      LeastConnection.pickServer net
        {| LeastConnection.lb := l; LeastConnection.clock := t |}
      = Ret (sel, {| LeastConnection.lb := l;
                     LeastConnection.clock :=
                       t + length (LeastConnection.servers l) |}) /\
      LeastConnection.serveProxy net o
        {| LeastConnection.lb := l; LeastConnection.clock := t |}
      = Ret (match sel with
             | None => HttpError StatusServiceUnavailable
             | Some q => Proxied q
             end,
             {| LeastConnection.lb := l;
                LeastConnection.clock :=
                  t + length (LeastConnection.servers l) |}).
Proof.
  intros net l t o Hint.
  destruct (pickServer_scanned net l t) as (sel & min & Hrun & Hinv).
  exists sel. split; [exact Hrun|].
  unfold LeastConnection.serveProxy. unfold bind at 1. rewrite Hrun.
  destruct sel as [q|]; [|reflexivity].
  cbn [LeastConnection.scanned] in Hinv. destruct Hinv as (Hq & _).
  destruct (lookup_lt_is_Some_2 (LeastConnection.servers l) q Hq) as [s Hs].
  unfold bind at 1.
  rewrite (lc_Serve_restores l _ q s o Hs (Hint q s Hs)). reflexivity.
Qed.

Lemma lc_serveProxy_forwards_to_pick_witness :
  exists sel,
    LeastConnection.pickServer LeastConnection.up_net
      {| LeastConnection.lb := LeastConnection.busy_lb;
         LeastConnection.clock := 0 |}
    = Ret (sel, {| LeastConnection.lb := LeastConnection.busy_lb;
                   LeastConnection.clock := 3 |}) /\
    LeastConnection.serveProxy LeastConnection.up_net
      LeastConnection.TransportFailed
      {| LeastConnection.lb := LeastConnection.busy_lb;
         LeastConnection.clock := 0 |}
    = Ret (match sel with
           | None => HttpError StatusServiceUnavailable
           | Some q => Proxied q
           end,
           {| LeastConnection.lb := LeastConnection.busy_lb;
              LeastConnection.clock := 3 |}).
Proof.
  apply (lc_serveProxy_forwards_to_pick LeastConnection.up_net
           LeastConnection.busy_lb 0 LeastConnection.TransportFailed).
  intros p s Hp.
  do 3 (destruct p as [|p];
        [injection Hp as <-; split; vm_compute; discriminate|]).
  discriminate.
Defined.

(** ** Least response time: what a forward records *)

Lemma lrt_dec_update_inc (d : Z) (s : LeastResponseTime.simpleServer) :
  in_int (LeastResponseTime.connections s) ->
  LeastResponseTime.DecrementConnection
    (LeastResponseTime.UpdateResponseTime d
       (LeastResponseTime.IncrementConnection s))
  = LeastResponseTime.UpdateResponseTime d s.
Proof.
  intros Hs. destruct s as [a c tot req].
  unfold LeastResponseTime.DecrementConnection,
    LeastResponseTime.UpdateResponseTime,
    LeastResponseTime.IncrementConnection. cbn in *. f_equal.
  replace (wrap_int (c + 1) - 1) with (wrap_int (c + 1) + -1) by lia.
  rewrite wrap_int_add. replace (c + 1 + -1) with c by lia.
  apply wrap_int_id, Hs.
Qed.

Lemma lrt_dec_inc (s : LeastResponseTime.simpleServer) :
  in_int (LeastResponseTime.connections s) ->
  LeastResponseTime.DecrementConnection
    (LeastResponseTime.IncrementConnection s) = s.
Proof.
  intros Hs. destruct s as [a c tot req].
  unfold LeastResponseTime.DecrementConnection,
    LeastResponseTime.IncrementConnection. cbn in *. f_equal.
  replace (wrap_int (c + 1) - 1) with (wrap_int (c + 1) + -1) by lia.
  rewrite wrap_int_add. replace (c + 1 + -1) with c by lia.
  apply wrap_int_id, Hs.
Qed.

(** One [Serve] on the backend at position [p], run to its end: a forward
    that returned after [duration] adds [duration] to the total response
    time of that backend and 1 to its request count; a forward that aborted
    records nothing; in both cases the connections count of the backend is
    restored, the other backends are untouched and no probe is issued. *)
Theorem lrt_Serve_records_completed_forwards :
  forall (l : LeastResponseTime.loadBalancer) (t p : nat)
         (s : LeastResponseTime.simpleServer)
         (o : LeastResponseTime.ForwardOutcome) (duration : Z),
    LeastResponseTime.servers l !! p = Some s ->
    in_int (LeastResponseTime.connections s) ->
    LeastResponseTime.Serve p o duration
      {| LeastResponseTime.lb := l; LeastResponseTime.clock := t |}
    = Ret (o,
           {| LeastResponseTime.lb :=
                {| LeastResponseTime.port := LeastResponseTime.port l;
                   LeastResponseTime.servers :=
                     <[p := match o with
                            | LeastResponseTime.Forwarded =>
                                LeastResponseTime.UpdateResponseTime duration s
                            | LeastResponseTime.TransportFailed => s
                            end]> (LeastResponseTime.servers l) |};
              LeastResponseTime.clock := t |}).
Proof.
  intros l t p s o duration Hp Hs. destruct l as [prt srv].
  cbn [LeastResponseTime.servers LeastResponseTime.port] in *.
  pose proof (lookup_lt_Some _ _ _ Hp) as Hlt.
  unfold LeastResponseTime.Serve.
  unfold bind at 1, LeastResponseTime.update_server at 1.
  cbn [LeastResponseTime.lb LeastResponseTime.servers LeastResponseTime.port
       LeastResponseTime.clock].
  rewrite Hp. unfold bind at 1.
  destruct o.
  - unfold LeastResponseTime.update_server at 1.
    cbn [LeastResponseTime.lb LeastResponseTime.servers LeastResponseTime.port
         LeastResponseTime.clock].
    rewrite list_lookup_insert_eq by exact Hlt.
    unfold bind at 1, LeastResponseTime.update_server at 1.
    cbn [LeastResponseTime.lb LeastResponseTime.servers LeastResponseTime.port
         LeastResponseTime.clock].
    rewrite list_lookup_insert_eq by (rewrite length_insert; exact Hlt).
    rewrite !list_insert_insert_eq, lrt_dec_update_inc by exact Hs.
    reflexivity.
  - cbn [ret]. unfold bind at 1, LeastResponseTime.update_server at 1.
    cbn [LeastResponseTime.lb LeastResponseTime.servers LeastResponseTime.port
         LeastResponseTime.clock].
    rewrite list_lookup_insert_eq by exact Hlt.
    rewrite list_insert_insert_eq, lrt_dec_inc by exact Hs.
    reflexivity.
Qed.

Lemma lrt_Serve_records_completed_forwards_witness :
  LeastResponseTime.Serve 1 LeastResponseTime.Forwarded 250
    {| LeastResponseTime.lb := LeastResponseTime.warm_lb;
       LeastResponseTime.clock := 0 |}
  = Ret (LeastResponseTime.Forwarded,
         {| LeastResponseTime.lb :=
              {| LeastResponseTime.port := "8000";
                 LeastResponseTime.servers :=
                   <[1%nat := LeastResponseTime.UpdateResponseTime 250
                                (LeastResponseTime.newSimpleServer
                                   "http://b.example")]>
                     (LeastResponseTime.servers LeastResponseTime.warm_lb) |};
            LeastResponseTime.clock := 0 |}).
Proof.
  apply (lrt_Serve_records_completed_forwards LeastResponseTime.warm_lb 0 1
           (LeastResponseTime.newSimpleServer "http://b.example")
           LeastResponseTime.Forwarded 250).
  - reflexivity.
  - split; vm_compute; discriminate.
Defined.

(** ** Least response time: the running average *)

Lemma sum_durations_bounds (ds : list Z) (lo hi : Z) :
  (forall d, In d ds -> lo <= d <= hi) ->
  len ds * lo <= sum_durations ds <= len ds * hi.
Proof.
  unfold len. induction ds as [|d ds IH]; intros Hall; [cbn; lia|].
  cbn [sum_durations fold_right length].
  assert (Hd : lo <= d <= hi) by (apply Hall; left; reflexivity).
  assert (Hrest : forall d', In d' ds -> lo <= d' <= hi)
    by (intros d' Hd'; apply Hall; right; exact Hd').
  specialize (IH Hrest). unfold sum_durations in IH. lia.
Qed.

Lemma lrt_record_totals (ds : list Z) :
  forall (s : LeastResponseTime.simpleServer),
    (forall d, In d ds -> 0 <= d) ->
    0 <= LeastResponseTime.requests s ->
    0 <= LeastResponseTime.totalResponseTime s ->
    LeastResponseTime.requests s + len ds <= max_int ->
    LeastResponseTime.totalResponseTime s + sum_durations ds <= max_int ->
    LeastResponseTime.requests (lrt_record ds s)
    = LeastResponseTime.requests s + len ds /\
    LeastResponseTime.totalResponseTime (lrt_record ds s)
    = LeastResponseTime.totalResponseTime s + sum_durations ds /\
    LeastResponseTime.connections (lrt_record ds s)
    = LeastResponseTime.connections s.
Proof.
  unfold len. induction ds as [|d ds IH]; intros s Hpos Hreq Htot Hr Ht.
  - cbn. repeat split; lia.
  - cbn [lrt_record fold_left sum_durations fold_right length] in *.
    assert (Hd : 0 <= d) by (apply Hpos; left; reflexivity).
    assert (Hrest : forall d', In d' ds -> 0 <= d')
      by (intros d' Hd'; apply Hpos; right; exact Hd').
    assert (Hsum0 : 0 <= sum_durations ds).
    { clear -Hrest. induction ds as [|d' ds IH]; [cbn; lia|].
      cbn [sum_durations fold_right].
      assert (0 <= d') by (apply Hrest; left; reflexivity).
      assert (0 <= sum_durations ds)
        by (apply IH; intros x Hx; apply Hrest; right; exact Hx).
      unfold sum_durations in *. lia. }
    unfold sum_durations in *.
    destruct (IH (LeastResponseTime.UpdateResponseTime d s)) as (H1 & H2 & H3);
      try exact Hrest;
      cbn [LeastResponseTime.UpdateResponseTime LeastResponseTime.requests
           LeastResponseTime.totalResponseTime LeastResponseTime.connections];
      rewrite ?wrap_int_id by (unfold in_int, min_int, max_int in *; lia);
      try lia.
    fold (lrt_record ds (LeastResponseTime.UpdateResponseTime d s)).
    unfold lrt_record in *. rewrite H1, H2, H3.
    cbn [LeastResponseTime.UpdateResponseTime LeastResponseTime.requests
         LeastResponseTime.totalResponseTime LeastResponseTime.connections].
    rewrite !wrap_int_id by (unfold in_int, min_int, max_int in *; lia).
    repeat split; lia.
Qed.



(** ** The picks over an empty pool *)

(** No program checks that its pool is not empty. Over an empty pool the
    round-robin, weighted and source-IP-hash picks panic on their first
    [% len(lb.servers)], whatever the network and the request, while the
    least-connections and least-response-time dispatchers answer 503
    without a probe. *)
Theorem empty_pool_panics_or_503 :
  forall (net : Network) (listen : string) (t fuel : nat),
    RoundRobin.pickServer net (S fuel)
      {| RoundRobin.lb := RoundRobin.newLoadBalancer listen [];
         RoundRobin.clock := t |} = Panic /\
    WeightedRoundRobin.pickServer net (S fuel)
      {| WeightedRoundRobin.lb := WeightedRoundRobin.newLoadBalancer listen [];
         WeightedRoundRobin.clock := t |} = Panic /\
    (forall ip,
        SourceIPHash.pickServer net (SourceIPHash.newLoadBalancer listen [])
          fuel ip t = Panic) /\
    (forall o,
        LeastConnection.serveProxy net o
          {| LeastConnection.lb := LeastConnection.newLoadBalancer listen [];
             LeastConnection.clock := t |}
        = Ret (HttpError StatusServiceUnavailable,
               {| LeastConnection.lb := LeastConnection.newLoadBalancer listen [];
                  LeastConnection.clock := t |})) /\
    (forall o duration,
        LeastResponseTime.serveProxy net o duration
          {| LeastResponseTime.lb := LeastResponseTime.newLoadBalancer listen [];
             LeastResponseTime.clock := t |}
        = Ret (HttpError StatusServiceUnavailable,
               {| LeastResponseTime.lb :=
                    LeastResponseTime.newLoadBalancer listen [];
                  LeastResponseTime.clock := t |})).
Proof.
  intros net listen t fuel. repeat split; try reflexivity.
Qed.

(** * The record store *)

Section StoreFacts.
Import DB.
Variable os : OS.
Variable Join : list string -> string.
Variable V : Type.
Variable MarshalIndent : V -> list Z + error.
Variable Unmarshal : list Z -> V + error.

Local Abbreviation Insert := (DB.Insert os Join V MarshalIndent).
Local Abbreviation Read := (DB.Read os Join V Unmarshal).
Local Abbreviation ReadAll := (DB.ReadAll os Join).
Local Abbreviation Delete := (DB.Delete os Join).

Lemma nonempty_eqb (s : string) : s <> "" -> (s =? "")%string = false.
Proof. intros Hs. apply String.eqb_neq. exact Hs. Qed.

(** [stat]: one [os.Stat], and a second one on the name with [.json] added
    exactly when the first reports a missing path. *)
Lemma stat_spec (path : string) (w : World) :
  stat os path w
  = if IsNotExist (os_Stat os (length (calls w)) path)
    then Ret (os_Stat os (S (length (calls w))) (path +:+ ".json"),
              logged (logged w (Stat path)) (Stat (path +:+ ".json")))
    else Ret (os_Stat os (length (calls w)) path, logged w (Stat path)).
Proof.
  unfold stat, bind, do_Stat.
  destruct (IsNotExist _); [|reflexivity].
  cbn [logged calls]. rewrite length_app, Nat.add_1_r. reflexivity.
Qed.

(** A call of [getOrCreateMutex] returns, asks nothing of the operating
    system, and leaves a mutex for the collection. *)
Lemma getOrCreateMutex_returns (c : string) (w : World) :
  exists m w',
    getOrCreateMutex c w = Ret (m, w') /\
    calls w' = calls w /\
    mutexes w' !! c = Some m /\
    (forall c' m', mutexes w !! c' = Some m' -> mutexes w' !! c' = Some m') /\
    (forall c', c' <> c -> mutexes w' !! c' = mutexes w !! c') /\
    (mutexes w !! c = None -> m = allocated w /\ allocated w' = S (allocated w)) /\
    (mutexes w !! c <> None -> w' = w).
Proof.
  unfold getOrCreateMutex. destruct (mutexes w !! c) as [m|] eqn:E.
  - exists m, w. repeat split; auto; congruence.
  - eexists _, _. split; [reflexivity|]. cbn [calls mutexes allocated].
    repeat split; auto.
    + apply lookup_insert_eq.
    + intros c' m' Hc'. rewrite lookup_insert_ne; [exact Hc'|congruence].
    + intros c' Hc'. apply lookup_insert_ne. congruence.
    + congruence.
Qed.

End StoreFacts.

(** Each collection gets a mutex of its own, once: from a state in which no
    two collections share a mutex, [getOrCreateMutex] returns the mutex
    already recorded for the collection, or a newly allocated one that it
    records; it replaces no entry of the map, keeps the collections on
    distinct mutexes, and returns the same mutex when called again. *)
Theorem db_one_mutex_per_collection :
  forall (c : string) (w : DB.World),
    DB.own_mutexes w ->
    exists m w',
      DB.getOrCreateMutex c w = Ret (m, w') /\
      DB.own_mutexes w' /\
      DB.mutexes w' !! c = Some m /\
      (forall c' m', DB.mutexes w !! c' = Some m' ->
                     DB.mutexes w' !! c' = Some m') /\
      (forall c', c' <> c -> DB.mutexes w' !! c' = DB.mutexes w !! c') /\
      DB.calls w' = DB.calls w /\
      DB.getOrCreateMutex c w' = Ret (m, w').
Proof.
  intros c w [Halloc Hinj].
  destruct (getOrCreateMutex_returns c w)
    as (m & w' & Hrun & Hcalls & Hc & Hkeep & Hother & Hnew & Hold).
  exists m, w'. split; [exact Hrun|].
  assert (Hown : DB.own_mutexes w').
  { destruct (DB.mutexes w !! c) as [m0|] eqn:E.
    - rewrite (Hold ltac:(congruence)). split; assumption.
    - destruct (Hnew eq_refl) as [-> Hal]. split.
      + intros c1 m1 H1. rewrite Hal.
        destruct (decide (c1 = c)) as [->|Hne].
        * rewrite Hc in H1. injection H1 as <-. lia.
        * rewrite (Hother c1 Hne) in H1. specialize (Halloc c1 m1 H1). lia.
      + intros c1 c2 m1 H1 H2.
        destruct (decide (c1 = c)) as [->|Hne1];
          destruct (decide (c2 = c)) as [->|Hne2]; [reflexivity| | |].
        * rewrite Hc in H1. injection H1 as <-.
          rewrite (Hother c2 Hne2) in H2. specialize (Halloc c2 _ H2). lia.
        * rewrite Hc in H2. injection H2 as <-.
          rewrite (Hother c1 Hne1) in H1. specialize (Halloc c1 _ H1). lia.
        * rewrite (Hother c1 Hne1) in H1. rewrite (Hother c2 Hne2) in H2.
          apply (Hinj c1 c2 m1 H1 H2). }
  repeat split; try assumption; try apply Hown.
  unfold DB.getOrCreateMutex. rewrite Hc. reflexivity.
Qed.

Lemma db_one_mutex_per_collection_witness :
  exists m w',
    DB.getOrCreateMutex "users" DB.empty_world = Ret (m, w') /\
    DB.own_mutexes w' /\
    DB.mutexes w' !! "users" = Some m /\
    (forall c' m', DB.mutexes DB.empty_world !! c' = Some m' ->
                   DB.mutexes w' !! c' = Some m') /\
    (forall c', c' <> "users" ->
                DB.mutexes w' !! c' = DB.mutexes DB.empty_world !! c') /\
    DB.calls w' = DB.calls DB.empty_world /\
    DB.getOrCreateMutex "users" w' = Ret (m, w').
Proof.
  apply (db_one_mutex_per_collection "users" DB.empty_world).
  split.
  - intros c m H. cbn in H. rewrite lookup_empty in H. discriminate.
  - intros c1 c2 m H. cbn in H. rewrite lookup_empty in H. discriminate.
Defined.

(** Empty names are refused before anything else happens: [Insert] and
    [Read] return their "Missing Collection" error when the collection name
    is empty, whatever the resource name, and their "Missing Resource" error
    when only the resource name is empty; [ReadAll] returns its "Missing
    Collection" error; in all these cases no call is made to the operating
    system and no mutex is created. *)
Theorem db_empty_names_rejected :
  forall (os : DB.OS) (Join : list string -> string) (V : Type)
         (MarshalIndent : V -> list Z + DB.error)
         (Unmarshal : list Z -> V + DB.error)
         (d : DB.Driver) (w : DB.World),
    (forall r v,
        DB.Insert os Join V MarshalIndent d "" r v w
        = Ret (Some (DB.Errorf "Missing Collection - no place to save record"),
               w)) /\
    (forall c v,
        c <> "" ->
        DB.Insert os Join V MarshalIndent d c "" v w
        = Ret (Some (DB.Errorf
                       "Missing Resource - unable to save record (no name)"),
               w)) /\
    (forall r,
        DB.Read os Join V Unmarshal d "" r w
        = Ret (inr (DB.Errorf "Missing Collection - unable to read records"),
               w)) /\
    (forall c,
        c <> "" ->
        DB.Read os Join V Unmarshal d c "" w
        = Ret (inr (DB.Errorf
                      "Missing Resource - unable to read record (no name)"),
               w)) /\
    DB.ReadAll os Join d "" w
    = Ret (inr (DB.Errorf "Missing Collection - unable to read records"), w).
Proof.
  intros os Join V MarshalIndent Unmarshal d w.
  split; [reflexivity|]. split.
  { intros c v Hc. unfold DB.Insert. rewrite (nonempty_eqb c Hc). reflexivity. }
  split; [reflexivity|]. split; [|reflexivity].
  intros c Hc. unfold DB.Read. rewrite (nonempty_eqb c Hc). reflexivity.
Qed.

(** [Insert] with names that are not empty never writes the record in
    place. It creates the directory of the collection, encodes the record,
    writes the encoding followed by a line feed to [finalPath + ".tmp"], and
    renames that file to [finalPath]; it stops at the first of these steps
    that fails and returns its error, so the file at [finalPath] is touched
    only by the rename of a temporary file that was written in full. The
    collection has a mutex afterwards. *)
Theorem db_Insert_writes_temp_then_renames :
  forall (os : DB.OS) (Join : list string -> string) (V : Type)
         (MarshalIndent : V -> list Z + DB.error)
         (d : DB.Driver) (c r : string) (v : V) (w : DB.World),
    c <> "" -> r <> "" ->
    let dirp := Join [DB.dir d; c] in
    let final := Join [dirp; r +:+ ".json"] in
    let temp := final +:+ ".tmp" in
    let n := length (DB.calls w) in
    exists res w' tr,
      DB.Insert os Join V MarshalIndent d c r v w = Ret (res, w') /\
      DB.calls w' = DB.calls w ++ tr /\
      is_Some (DB.mutexes w' !! c) /\
      ((exists e,
           res = Some e /\ tr = [DB.MkdirAll dirp 493] /\
           (DB.os_MkdirAll os n dirp 493 = Some e \/
            (DB.os_MkdirAll os n dirp 493 = None /\ MarshalIndent v = inr e)))
       \/
       (exists b e,
           res = Some e /\
           tr = [DB.MkdirAll dirp 493; DB.WriteFile temp (b ++ [10]) 420] /\
           MarshalIndent v = inl b /\
           DB.os_WriteFile os (S n) temp (b ++ [10]) 420 = Some e)
       \/
       (exists b,
           res = DB.os_Rename os (S (S n)) temp final /\
           tr = [DB.MkdirAll dirp 493; DB.WriteFile temp (b ++ [10]) 420;
                 DB.Rename temp final] /\
           MarshalIndent v = inl b /\
           DB.os_MkdirAll os n dirp 493 = None /\
           DB.os_WriteFile os (S n) temp (b ++ [10]) 420 = None)).
Proof.
  intros os Join V MarshalIndent d c r v w Hc Hr dirp final temp n.
  unfold DB.Insert. rewrite (nonempty_eqb c Hc), (nonempty_eqb r Hr).
  destruct (getOrCreateMutex_returns c w)
    as (m & [mx1 al1 cs1] & Hmx & Hcalls & Hm & _).
  cbn [DB.calls DB.mutexes] in Hcalls, Hm. subst cs1.
  unfold bind at 1. rewrite Hmx.
  unfold bind at 1, DB.do_MkdirAll at 1. cbn [DB.calls]. fold dirp n.
  destruct (DB.os_MkdirAll os n dirp 493) as [e|] eqn:Emk.
  { eexists _, _, _. split; [reflexivity|]. cbn [DB.logged DB.calls DB.mutexes].
    split; [reflexivity|]. split; [eauto|].
    left. exists e. auto. }
  destruct (MarshalIndent v) as [b|e] eqn:Ems.
  2:{ eexists _, _, _. split; [reflexivity|].
      cbn [DB.logged DB.calls DB.mutexes].
      split; [reflexivity|]. split; [eauto|].
      left. exists e. auto. }
  unfold bind at 1, DB.do_WriteFile at 1.
  cbn [DB.logged DB.calls DB.mutexes DB.allocated].
  rewrite length_app, Nat.add_1_r. fold n final temp.
  destruct (DB.os_WriteFile os (S n) temp (b ++ [10]) 420) as [e|] eqn:Ewr.
  { eexists _, _, _. split; [reflexivity|].
    cbn [DB.logged DB.calls DB.mutexes].
    rewrite <- app_assoc. split; [reflexivity|]. split; [eauto|].
    right. left. exists b, e. auto. }
  unfold DB.do_Rename. cbn [DB.logged DB.calls DB.mutexes DB.allocated].
  eexists _, _, _. split; [reflexivity|].
  cbn [DB.logged DB.calls DB.mutexes].
  rewrite !length_app. cbn [length]. rewrite !Nat.add_1_r. fold n.
  rewrite <- !app_assoc. split; [reflexivity|]. split; [eauto|].
  right. right. exists b. auto.
Qed.

Lemma db_Insert_writes_temp_then_renames_witness :
  exists res w' tr,
    DB.Insert DB.quiet_os DB.slash_join (list Z) (fun v => inl v)
      {| DB.dir := "db" |} "users" "ann" [123; 125] DB.empty_world
    = Ret (res, w') /\
    DB.calls w' = DB.calls DB.empty_world ++ tr /\
    res = None /\
    tr = [DB.MkdirAll "db/users" 493;
          DB.WriteFile "db/users/ann.json.tmp" [123; 125; 10] 420;
          DB.Rename "db/users/ann.json.tmp" "db/users/ann.json"].
Proof.
  destruct (db_Insert_writes_temp_then_renames DB.quiet_os DB.slash_join
              (list Z) (fun v => inl v) {| DB.dir := "db" |} "users" "ann"
              [123; 125] DB.empty_world)
    as (res & w' & tr & Hrun & Hcalls & _ & Hcase); [discriminate..|].
  exists res, w', tr. split; [exact Hrun|]. split; [exact Hcalls|].
  destruct Hcase as [(e & _ & _ & [H|[_ H]])|[(b & e & _ & _ & _ & H)
                                              |(b & Hres & Htr & Hb & _)]];
    try discriminate.
  injection Hb as <-. split; [exact Hres|exact Htr].
Defined.


Section ReadAllFacts.
Import DB.
Variable os : OS.
Variable Join : list string -> string.

(** The loop of [ReadAll]: it reads the entries that are not directories, in
    the order of the listing, and stops at the first read that fails. *)
Lemma read_files_spec (dirp : string) (files : list FileInfo) :
  forall (records : list (list Z)) (w : World),
    exists res w' tr,
      read_files os Join dirp files records w = Ret (res, w') /\
      calls w' = calls w ++ tr /\
      forallb reads_only tr = true /\
      mutexes w' = mutexes w /\ allocated w' = allocated w /\
      match res with
      | inl recs =>
          exists new,
            recs = records ++ new /\
            length new = length (db_plain_files files) /\
            forall k f,
              db_plain_files files !! k = Some f ->
              exists b,
                new !! k = Some b /\
                os_ReadFile os (length (calls w) + k) (Join [dirp; Name f])
                = inl b
      | inr e =>
          exists k f,
            db_plain_files files !! k = Some f /\
            os_ReadFile os (length (calls w) + k) (Join [dirp; Name f])
            = inr e
      end.
Proof.
  induction files as [|file files IH]; intros records w.
  - exists (inl records), w, []. cbn [read_files]. unfold ret.
    rewrite app_nil_r. repeat split.
    exists []. rewrite app_nil_r. repeat split.
    intros k f Hk. cbn in Hk. discriminate.
  - cbn [read_files]. unfold db_plain_files. cbn [List.filter].
    fold (db_plain_files files).
    destruct (IsDir file) eqn:Edir; cbn [negb]; [apply IH|].
    unfold bind at 1, do_ReadFile at 1.
    destruct (os_ReadFile os (length (calls w)) (Join [dirp; Name file]))
      as [b|e] eqn:Erd.
    + destruct (IH (records ++ [b]) (logged w (ReadFile (Join [dirp; Name file]))))
        as (res & w' & tr & Hrun & Hcalls & Hro & Hmx & Hal & Hres).
      exists res, w', (ReadFile (Join [dirp; Name file]) :: tr).
      split; [exact Hrun|].
      cbn [logged calls mutexes allocated] in *.
      rewrite <- app_assoc in Hcalls. split; [exact Hcalls|].
      split; [cbn; exact Hro|]. split; [exact Hmx|]. split; [exact Hal|].
      rewrite length_app in Hres. cbn [length] in Hres.
      destruct res as [recs|e].
      * destruct Hres as (new & Hrecs & Hlen & Hnth).
        exists (b :: new). rewrite <- app_assoc in Hrecs.
        split; [exact Hrecs|]. split; [cbn; lia|].
        intros k f Hk. destruct k as [|k].
        -- cbn in Hk. injection Hk as <-. exists b.
           rewrite Nat.add_0_r. split; [reflexivity|exact Erd].
        -- cbn in Hk. destruct (Hnth k f Hk) as (b' & Hb' & Hrd').
           exists b'. split; [exact Hb'|].
           replace (length (calls w) + S k)%nat
             with (length (calls w) + 1 + k)%nat by lia. exact Hrd'.
      * destruct Hres as (k & f & Hk & Hrd').
        exists (S k), f. split; [exact Hk|].
        replace (length (calls w) + S k)%nat
          with (length (calls w) + 1 + k)%nat by lia. exact Hrd'.
    + eexists _, _, [_]. split; [reflexivity|].
      cbn [logged calls mutexes allocated]. repeat split.
      exists 0%nat, file. rewrite Nat.add_0_r. split; [reflexivity|exact Erd].
Qed.

End ReadAllFacts.

(** [ReadAll] of a collection whose name is not empty looks the directory up
    with [stat] and returns the error of a failed lookup. Otherwise it lists
    the directory and returns one record per entry that is not a directory,
    in the order of the listing, each the content read from the file of that
    entry; directories give no record, and a listing that fails counts as an
    empty one: no record and no error. When a read fails its error is
    returned and no record at all. *)
Theorem db_ReadAll_one_record_per_file :
  forall (os : DB.OS) (Join : list string -> string)
         (d : DB.Driver) (c : string) (w : DB.World),
    c <> "" ->
    let dirp := Join [DB.dir d; c] in
    let n := length (DB.calls w) in
    let first := DB.os_Stat os n dirp in
    let found := if DB.IsNotExist first
                 then DB.os_Stat os (S n) (dirp +:+ ".json") else first in
    let t := if DB.IsNotExist first then S (S n) else S n in
    let files := match DB.os_ReadDir os t dirp with
                 | inl fs => db_plain_files fs
                 | inr _ => []
                 end in
    exists res w',
      DB.ReadAll os Join d c w = Ret (res, w') /\
      match found with
      | inr e => res = inr e
      | inl _ =>
          match res with
          | inl recs =>
              length recs = length files /\
              forall k f,
                files !! k = Some f ->
                exists b,
                  recs !! k = Some b /\
                  DB.os_ReadFile os (S t + k) (Join [dirp; DB.Name f]) = inl b
          | inr e =>
              exists k f,
                files !! k = Some f /\
                DB.os_ReadFile os (S t + k) (Join [dirp; DB.Name f]) = inr e
          end
      end.
Proof.
  intros os Join d c w Hc dirp n first found t files.
  unfold DB.ReadAll. rewrite (nonempty_eqb c Hc). fold dirp.
  unfold bind at 1. rewrite stat_spec. fold n first.
  assert (Hgo : forall w1 : DB.World,
    length (DB.calls w1) = t ->
    exists res w',
      (listing <- DB.do_ReadDir os dirp ;;
       DB.read_files os Join dirp
         match listing with inl fs => fs | inr _ => [] end []) w1
      = Ret (res, w') /\
      match res with
      | inl recs =>
          length recs = length files /\
          forall k f,
            files !! k = Some f ->
            exists b,
              recs !! k = Some b /\
              DB.os_ReadFile os (S t + k) (Join [dirp; DB.Name f]) = inl b
      | inr e =>
          exists k f,
            files !! k = Some f /\
            DB.os_ReadFile os (S t + k) (Join [dirp; DB.Name f]) = inr e
      end).
  { intros w1 Hlen. unfold bind, DB.do_ReadDir. rewrite Hlen.
    set (fs := match DB.os_ReadDir os t dirp with
               | inl fs => fs | inr _ => [] end).
    assert (Hfiles : files = db_plain_files fs)
      by (unfold files, fs; destruct (DB.os_ReadDir os t dirp); reflexivity).
    destruct (read_files_spec os Join dirp fs []
                (DB.logged w1 (DB.ReadDir dirp)))
      as (res & w' & tr & Hrun & _ & _ & _ & _ & Hres).
    exists res, w'. split; [exact Hrun|].
    cbn [DB.logged DB.calls] in Hres. rewrite length_app, Hlen in Hres.
    cbn [length] in Hres. rewrite Nat.add_1_r in Hres. rewrite Hfiles.
    destruct res as [recs|e]; [|exact Hres].
    destruct Hres as (new & -> & Hlen' & Hnth). cbn [app].
    split; [exact Hlen'|exact Hnth]. }
  destruct (DB.IsNotExist first) eqn:Enx; subst found t; cbv beta iota.
  - destruct (DB.os_Stat os (S n) (dirp +:+ ".json")) as [fi|e].
    + apply Hgo. cbn [DB.logged DB.calls]. rewrite !length_app. cbn. lia.
    + eexists _, _. split; reflexivity.
  - destruct first as [fi|e].
    + apply Hgo. cbn [DB.logged DB.calls]. rewrite !length_app. cbn. lia.
    + eexists _, _. split; reflexivity.
Qed.

Lemma db_ReadAll_one_record_per_file_witness :
  exists res w',
    DB.ReadAll DB.quiet_os DB.slash_join {| DB.dir := "db" |} "users"
      DB.empty_world = Ret (res, w') /\
    res = inl [[123; 125; 10]; [123; 125; 10]].
Proof.
  destruct (db_ReadAll_one_record_per_file DB.quiet_os DB.slash_join
              {| DB.dir := "db" |} "users" DB.empty_world)
    as (res & w' & Hrun & _); [discriminate|].
  exists res, w'. split; [exact Hrun|].
  vm_compute in Hrun. injection Hrun as <- _. reflexivity.
Defined.

(** [Read] and [ReadAll] only look: whatever their arguments and whatever
    the operating system answers, they return, the calls they make are
    [os.Stat], [ioutil.ReadFile] and [ioutil.ReadDir] only, and they take no
    mutex: the map of mutexes is as before. *)
Theorem db_reads_change_nothing :
  forall (os : DB.OS) (Join : list string -> string) (V : Type)
         (Unmarshal : list Z -> V + DB.error)
         (d : DB.Driver) (c r : string) (w : DB.World),
    (exists res w' tr,
        DB.Read os Join V Unmarshal d c r w = Ret (res, w') /\
        DB.calls w' = DB.calls w ++ tr /\
        forallb DB.reads_only tr = true /\
        DB.mutexes w' = DB.mutexes w /\
        DB.allocated w' = DB.allocated w) /\
    (exists res w' tr,
        DB.ReadAll os Join d c w = Ret (res, w') /\
        DB.calls w' = DB.calls w ++ tr /\
        forallb DB.reads_only tr = true /\
        DB.mutexes w' = DB.mutexes w /\
        DB.allocated w' = DB.allocated w).
Proof.
  intros os Join V Unmarshal d c r w. split.
  - unfold DB.Read.
    destruct (c =? "")%string;
      [exists (inr (DB.Errorf "Missing Collection - unable to read records")),
         w, []; rewrite app_nil_r; auto|].
    destruct (r =? "")%string;
      [exists (inr (DB.Errorf
                      "Missing Resource - unable to read record (no name)")),
         w, []; rewrite app_nil_r; auto|].
    unfold bind at 1. rewrite stat_spec.
    destruct (DB.IsNotExist _);
      (match goal with
       | |- context [match ?a with inl _ => _ | inr _ => _ end] =>
           destruct a as [fi|e]
       end;
       [ unfold bind, DB.do_ReadFile;
         match goal with
         | |- context [DB.os_ReadFile ?o ?k ?p] =>
             destruct (DB.os_ReadFile o k p)
         end
       | ]);
      unfold ret; eexists _, _, _; (split; [reflexivity|]);
      cbn [DB.logged DB.calls DB.mutexes DB.allocated];
      rewrite <- ?app_assoc; cbn [app]; auto.
  - unfold DB.ReadAll.
    destruct (c =? "")%string;
      [exists (inr (DB.Errorf "Missing Collection - unable to read records")),
         w, []; rewrite app_nil_r; auto|].
    unfold bind at 1. rewrite stat_spec.
    assert (Hgo : forall (w1 : DB.World) (tr1 : list DB.Call),
      DB.calls w1 = DB.calls w ++ tr1 ->
      forallb DB.reads_only tr1 = true ->
      DB.mutexes w1 = DB.mutexes w -> DB.allocated w1 = DB.allocated w ->
      exists res w' tr,
        (listing <- DB.do_ReadDir os (Join [DB.dir d; c]) ;;
         DB.read_files os Join (Join [DB.dir d; c])
           match listing with inl fs => fs | inr _ => [] end []) w1
        = Ret (res, w') /\
        DB.calls w' = DB.calls w ++ tr /\
        forallb DB.reads_only tr = true /\
        DB.mutexes w' = DB.mutexes w /\
        DB.allocated w' = DB.allocated w).
    { intros w1 tr1 Hc1 Hro1 Hm1 Ha1. unfold bind, DB.do_ReadDir.
      destruct (read_files_spec os Join (Join [DB.dir d; c])
                  match DB.os_ReadDir os (length (DB.calls w1))
                          (Join [DB.dir d; c]) with
                  | inl fs => fs | inr _ => [] end []
                  (DB.logged w1 (DB.ReadDir (Join [DB.dir d; c]))))
        as (res & w' & tr & Hrun & Hcalls & Hro & Hmx & Hal & _).
      exists res, w', (tr1 ++ DB.ReadDir (Join [DB.dir d; c]) :: tr).
      split; [exact Hrun|].
      cbn [DB.logged DB.calls DB.mutexes DB.allocated] in *.
      rewrite Hcalls, Hc1, <- !app_assoc. split; [reflexivity|].
      rewrite forallb_app, Hro1. cbn. rewrite Hro.
      repeat split; congruence. }
    destruct (DB.IsNotExist _);
      (match goal with
       | |- context [match ?a with inl _ => _ | inr _ => _ end] =>
           destruct a as [fi|e]
       end;
       [ eapply Hgo; cbn [DB.logged DB.calls DB.mutexes DB.allocated];
         rewrite <- ?app_assoc; cbn [app]; reflexivity
       | unfold ret; eexists _, _, _; (split; [reflexivity|]);
         cbn [DB.logged DB.calls DB.mutexes DB.allocated];
         rewrite <- ?app_assoc; cbn [app]; auto ]).
Qed.

(** * Weighted round robin over a pool that answers: the rotation *)

Lemma last_cons_default {A : Type} (l : list A) :
  forall a d, List.last (a :: l) d = List.last l a.
Proof.
  induction l as [|b l IH]; intros a d; [reflexivity|].
  change (List.last (a :: b :: l) d) with (List.last (b :: l) d).
  rewrite (IH b d), (IH b a). reflexivity.
Qed.

Section WeightedRotation.
Import WeightedRoundRobin.
Variable net : Network.
Hypothesis all_alive : forall t a, probe_alive (net t a) = true.
Variables (listen : string) (pool : list simpleServer).
Hypothesis pool_fits : len pool <= max_int.

Local Abbreviation state := (wrr_state listen pool).
Local Abbreviation eligible := (wrr_eligible pool).

Lemma eligible_counter (c : Z) (i : nat) (s : simpleServer) :
  pool !! i = Some s -> (weight s >=? c) = eligible c i.
Proof.
  intros Hs. unfold wrr_eligible. rewrite Hs. apply Z.geb_leb.
Qed.

(** A turn of the loop that moves the cursor inside the pool. *)
Lemma wrr_turn_inside (fuel j : nat) (c : Z) (t : nat) :
  (S j < length pool)%nat ->
  pick_loop net (S fuel) (state (Z.of_nat j) c t)
  = if eligible c (S j)
    then Ret (Some (S j), state (Z.of_nat (S j)) c (S t))
    else pick_loop net fuel (state (Z.of_nat (S j)) c t).
Proof.
  intros Hj. unfold wrr_state, len in *.
  rewrite wrr_pick_loop_S.
  unfold bind at 1, get_lb at 1. cbn [lb currentServer servers].
  rewrite wrap_int_id by (unfold in_int, min_int, max_int in *; lia).
  unfold bind at 1. unfold go_rem at 1. unfold len.
  destruct (Z.eqb_spec (Z.of_nat (length pool)) 0) as [E0|E0]; [lia|]. cbn [ret].
  rewrite Z.rem_small by lia.
  replace (Z.of_nat j + 1) with (Z.of_nat (S j)) by lia.
  unfold bind at 1, set_currentServer at 1.
  cbn [lb clock port currentWeight currentServer servers weightCounters].
  unfold bind at 1, get_lb at 1. cbn [lb currentServer].
  destruct (Z.eqb_spec (Z.of_nat (S j)) 0) as [E1|E1]; [lia|].
  unfold bind at 1. cbn [ret].
  unfold bind at 1, get_lb at 1. cbn [lb currentServer weightCounters].
  destruct (lookup_lt_is_Some_2 pool (S j) Hj) as [s Hs].
  unfold bind at 1, index at 1.
  assert (E2 : (Z.of_nat (S j) <? 0) = false) by (apply Z.ltb_ge; lia). rewrite E2.
  rewrite Nat2Z.id.
  change (map Weight pool) with (Weight <$> pool).
  rewrite list_lookup_fmap, Hs. cbn [fmap option_fmap option_map ret].
  cbn [lb currentWeight servers currentServer]. unfold Weight.
  rewrite (eligible_counter c (S j) s Hs).
  destruct (eligible c (S j)); [|reflexivity].
  unfold bind at 1, index at 1. rewrite E2, Nat2Z.id, Hs. cbn [ret].
  unfold bind at 1, IsAlive at 1. rewrite all_alive. cbn [lb clock].
  rewrite ?Nat2Z.id. reflexivity.
Qed.

(** The turn on which the cursor wraps to the head of the pool: the level
    moves on first. *)
Lemma wrr_turn_wrap (fuel j : nat) (c : Z) (t : nat) :
  S j = length pool ->
  min_int < c <= max_int ->
  1 <= maxWeight pool ->
  pick_loop net (S fuel) (state (Z.of_nat j) c t)
  = if eligible (wrr_next_level pool c) 0
    then Ret (Some 0%nat, state 0 (wrr_next_level pool c) (S t))
    else pick_loop net fuel (state 0 (wrr_next_level pool c) t).
Proof.
  intros Hj Hc Hmax. unfold wrr_state, len in *.
  rewrite wrr_pick_loop_S.
  unfold bind at 1, get_lb at 1. cbn [lb currentServer servers].
  rewrite wrap_int_id by (unfold in_int, min_int, max_int in *; lia).
  unfold bind at 1. unfold go_rem at 1. unfold len.
  destruct (Z.eqb_spec (Z.of_nat (length pool)) 0) as [E0|E0]; [lia|]. cbn [ret].
  replace (Z.of_nat j + 1) with (Z.of_nat (length pool)) by lia.
  rewrite Z.rem_same by lia.
  unfold bind at 1, set_currentServer at 1.
  cbn [lb clock port currentWeight currentServer servers weightCounters].
  unfold bind at 1, get_lb at 1. cbn [lb currentServer].
  cbn [Z.eqb].
  unfold bind at 1, next_weight at 1.
  cbv [bind get_lb set_currentWeight lb clock port currentWeight currentServer
       servers weightCounters].
  rewrite wrap_int_id by (unfold in_int, min_int, max_int in *; lia).
  unfold wrr_next_level.
  destruct (lookup_lt_is_Some_2 pool 0 ltac:(lia)) as [s Hs].
  assert (Htail : forall c' : Z,
    (counter <- index (Weight <$> pool) 0 ;;
     (if counter >=? c'
      then server <- index pool 0 ;;
           alive <- IsAlive net server ;;
           (if alive then ret (Some (Z.to_nat 0)) else pick_loop net fuel)
      else pick_loop net fuel))
      {| lb := Build_loadBalancer listen c' 0 pool (Weight <$> pool);
         clock := t |}
    = if eligible c' 0
      then Ret (Some 0%nat,
                {| lb := Build_loadBalancer listen c' 0 pool (Weight <$> pool);
                   clock := S t |})
      else pick_loop net fuel
             {| lb := Build_loadBalancer listen c' 0 pool (Weight <$> pool);
                clock := t |}).
  { intros c'. unfold bind at 1, index at 1. cbn [Z.ltb Z.compare]. change (Z.to_nat 0) with 0%nat.
    rewrite list_lookup_fmap, Hs. cbn [fmap option_fmap option_map ret].
    unfold Weight. rewrite (eligible_counter c' 0 s Hs).
    destruct (eligible c' 0); [|reflexivity].
    unfold bind at 1, index at 1. cbn [Z.ltb Z.compare]. change (Z.to_nat 0) with 0%nat.
    rewrite Hs. cbn [ret].
    unfold bind at 1, IsAlive at 1. rewrite all_alive. reflexivity. }
  change (map Weight pool) with (Weight <$> pool).
  destruct (c - 1 <=? 0).
  - destruct (Z.eqb_spec (maxWeight pool) 0) as [EM|EM]; [lia|]. apply Htail.
  - apply Htail.
Qed.

Hypothesis weights_fit : 1 <= maxWeight pool <= max_int.

Local Abbreviation st s t :=
  (wrr_state listen pool (Z.of_nat (fst s)) (snd s) t).
Local Abbreviation valid s :=
  (and (lt (fst s) (length pool)) (min_int < snd s <= max_int)).

(** One turn of the loop, wherever the cursor is. *)
Lemma wrr_turn (fuel : nat) (s : nat * Z) (t : nat) :
  valid s ->
  pick_loop net (S fuel) (st s t)
  = if wrr_passes pool (wrr_after pool s)
    then Ret (Some (fst (wrr_after pool s)), st (wrr_after pool s) (S t))
    else pick_loop net fuel (st (wrr_after pool s) t).
Proof.
  destruct s as [j c]; intros [Hj Hc]; cbn [fst snd] in *.
  unfold wrr_after, wrr_passes; cbn [fst snd].
  destruct (Nat.ltb_spec (S j) (length pool)); cbn [fst snd].
  - apply wrr_turn_inside. assumption.
  - change (Z.of_nat 0) with 0.
    apply (wrr_turn_wrap fuel j c t); [lia | assumption | lia].
Qed.

Lemma wrr_after_valid (s : nat * Z) : valid s -> valid (wrr_after pool s).
Proof.
  destruct s as [j c]; intros [Hj Hc]; cbn [fst snd] in *.
  unfold wrr_after, wrr_next_level; cbn [fst snd].
  destruct (Nat.ltb_spec (S j) (length pool)); cbn [fst snd].
  - split; assumption.
  - split; [lia|].
    destruct (Z.leb_spec (c - 1) 0); unfold min_int, max_int in *; lia.
Qed.

(** A call that returns still returns, and the same, with more fuel. *)
Lemma wrr_pick_more_fuel (fuel : nat) :
  forall (s : nat * Z) (t : nat) r,
    valid s ->
    pick_loop net fuel (st s t) = Ret r ->
    pick_loop net (S fuel) (st s t) = Ret r.
Proof.
  induction fuel as [|fuel IH]; intros s t r Hs Hrun.
  - discriminate Hrun.
  - rewrite wrr_turn in Hrun |- * by exact Hs.
    destruct (wrr_passes pool (wrr_after pool s)); [exact Hrun|].
    apply IH; [apply wrr_after_valid, Hs | exact Hrun].
Qed.

Lemma wrr_picks_S_inv (fuel n : nat) (w w' : World) (rs : list (option nat)) :
  picks net fuel (S n) w = Ret (rs, w') ->
  exists r w1 rs',
    pick_loop net fuel w = Ret (r, w1) /\
    picks net fuel n w1 = Ret (rs', w') /\ rs = r :: rs'.
Proof.
  cbn [picks]. unfold pickServer, bind.
  destruct (pick_loop net fuel w) as [[r w1]| |]; try discriminate.
  destruct (picks net fuel n w1) as [[rs' w2]| |] eqn:Hrest; try discriminate.
  intros H; injection H as <- <-. exists r, w1, rs'. auto.
Qed.

Lemma wrr_picks_S_intro (fuel n : nat) (w w1 w' : World) r
    (rs' : list (option nat)) :
  pick_loop net fuel w = Ret (r, w1) ->
  picks net fuel n w1 = Ret (rs', w') ->
  picks net fuel (S n) w = Ret (r :: rs', w').
Proof.
  intros H1 H2. cbn [picks]. unfold pickServer, bind.
  rewrite H1, H2. reflexivity.
Qed.

(** The calls made along a path return the backends of its passing pairs
    and stop on the last of them. *)
Lemma wrr_picks_path (k : nat) :
  forall (s : nat * Z) (t fuel : nat),
    valid s -> (k <= fuel)%nat ->
    picks net fuel (length (wrr_served pool s k)) (st s t)
    = Ret (map (fun p => Some (fst p)) (wrr_served pool s k),
           st (List.last (wrr_served pool s k) s)
              (t + length (wrr_served pool s k))%nat).
Proof.
  induction k as [|k IH]; intros s t fuel Hs Hfuel.
  - cbn. rewrite Nat.add_0_r. reflexivity.
  - destruct fuel as [|f]; [lia|].
    pose proof (wrr_after_valid s Hs) as Hs1.
    unfold wrr_served in *. cbn [wrr_path List.filter].
    destruct (wrr_passes pool (wrr_after pool s)) eqn:Hp.
    + cbn [length map]. eapply wrr_picks_S_intro.
      * rewrite wrr_turn by exact Hs. rewrite Hp. reflexivity.
      * rewrite (IH (wrr_after pool s) (S t) (S f) Hs1) by lia.
        rewrite last_cons_default, Nat.add_succ_r. reflexivity.
    + pose proof (IH (wrr_after pool s) t f Hs1 ltac:(lia)) as IHf.
      pose proof (IH (wrr_after pool s) t (S f) Hs1 ltac:(lia)) as IHSf.
      destruct (List.filter (wrr_passes pool)
                  (wrr_path pool (wrr_after pool s) k)) as [|x L] eqn:EL.
      * cbn. rewrite Nat.add_0_r. reflexivity.
      * cbn [length] in *.
        apply wrr_picks_S_inv in IHf. destruct IHf as (r & w1 & rs1 & Hp1 & _ & Hr1).
        apply wrr_picks_S_inv in IHSf.
        destruct IHSf as (r2 & w2 & rs2 & Hp2 & Hrest & Hr2).
        rewrite (wrr_pick_more_fuel f _ t (r, w1) Hs1 Hp1) in Hp2.
        injection Hp2 as <- <-.
        rewrite Hr2, (last_cons_default L x s).
        rewrite (last_cons_default L x (wrr_after pool s)) in Hrest.
        eapply wrr_picks_S_intro; [|exact Hrest].
        rewrite wrr_turn by exact Hs. rewrite Hp. exact Hp1.
Qed.

End WeightedRotation.

(** ** Weighted round robin: the path of the cursor, level by level *)

Lemma last_app_nonempty {A : Type} (l1 l2 : list A) (d : A) :
  l2 <> [] -> List.last (l1 ++ l2) d = List.last l2 d.
Proof.
  intros Hne. induction l1 as [|a l1 IH]; [reflexivity|].
  cbn [app]. rewrite last_cons_default.
  destruct (l1 ++ l2) as [|b l] eqn:E.
  - destruct l1; [cbn in E; contradiction|discriminate].
  - rewrite <- IH. rewrite !last_cons_default. reflexivity.
Qed.

Lemma last_map_default {A B : Type} (f : A -> B) (l : list A) :
  forall d, List.last (map f l) (f d) = f (List.last l d).
Proof.
  induction l as [|a l IH]; intros d; [reflexivity|].
  cbn [map]. rewrite !last_cons_default. apply IH.
Qed.

Lemma last_map_nonempty {A B : Type} (f : A -> B) (l : list A) (d : A) (e : B) :
  l <> [] -> List.last (map f l) e = f (List.last l d).
Proof.
  destruct l as [|a l]; [contradiction|intros _].
  cbn [map]. rewrite !last_cons_default. apply last_map_default.
Qed.

Lemma filter_none {A : Type} (P : A -> bool) (l : list A) :
  (forall x, In x l -> P x = false) -> List.filter P l = [].
Proof.
  induction l as [|a l IH]; intros H; [reflexivity|].
  cbn [List.filter]. rewrite (H a (or_introl eq_refl)).
  apply IH. intros x Hx. apply H. right. exact Hx.
Qed.

(** Past the last passing position of a stretch nothing passes. *)
Lemma filter_seq_last (P : nat -> bool) (a : nat) :
  forall (l i d : nat),
    (a <= i < a + l)%nat -> P i = true ->
    List.filter P (seq a l) <> [] /\
    (i <= List.last (List.filter P (seq a l)) d)%nat.
Proof.
  induction l as [|l IH]; intros i d Hi HP; [lia|].
  rewrite seq_S, List.filter_app. cbn [List.filter].
  destruct (P (a + l)%nat) eqn:E.
  - split; [intros H; apply app_eq_nil in H; destruct H; discriminate|].
    rewrite last_last. lia.
  - rewrite app_nil_r. apply IH; [|exact HP].
    assert (i <> (a + l)%nat) by congruence. lia.
Qed.

Lemma count_occ_filter_seq (P : nat -> bool) (a l i : nat) :
  (a <= i < a + l)%nat ->
  count_occ Nat.eq_dec (List.filter P (seq a l)) i
  = if P i then 1%nat else 0%nat.
Proof.
  intros Hi. destruct (P i) eqn:E.
  - apply NoDup_count_occ'.
    + apply List.NoDup_filter, seq_NoDup.
    + apply List.filter_In. split; [apply in_seq; exact Hi|exact E].
  - apply count_occ_not_In. intros H. apply List.filter_In in H.
    destruct H as [_ H]. congruence.
Qed.

Section RotationLists.
Import WeightedRoundRobin.
Variable pool : list simpleServer.

Lemma wrr_path_app (a b : nat) :
  forall s,
    wrr_path pool s (a + b)
    = wrr_path pool s a ++ wrr_path pool (wrr_reach pool s a) b.
Proof.
  induction a as [|a IH]; intros s; [reflexivity|].
  cbn [Nat.add wrr_path wrr_reach app]. rewrite IH. reflexivity.
Qed.

Lemma wrr_reach_app (a b : nat) :
  forall s,
    wrr_reach pool s (a + b) = wrr_reach pool (wrr_reach pool s a) b.
Proof.
  induction a as [|a IH]; intros s; [reflexivity|].
  cbn [Nat.add wrr_reach]. apply IH.
Qed.

(** Inside the pool the cursor walks on at the same level. *)
Lemma wrr_path_inside (k : nat) :
  forall (j : nat) (c : Z),
    (j + k < length pool)%nat ->
    wrr_path pool (j, c) k = map (fun i => (i, c)) (seq (S j) k) /\
    wrr_reach pool (j, c) k = ((j + k)%nat, c).
Proof.
  induction k as [|k IH]; intros j c Hk; cbn [wrr_path wrr_reach seq map].
  - rewrite Nat.add_0_r. split; reflexivity.
  - unfold wrr_after; cbn [fst snd].
    destruct (Nat.ltb_spec (S j) (length pool)); [|lia].
    destruct (IH (S j) c ltac:(lia)) as [-> ->].
    split; [reflexivity|f_equal; lia].
Qed.

(** From the last position the next [length pool] turns sweep the pool once
    at the next level and are back on the last position. *)
Lemma wrr_path_level (j m : nat) (c : Z) :
  S j = length pool -> m = length pool ->
  wrr_path pool (j, c) m
  = map (fun i => (i, wrr_next_level pool c)) (seq 0 m) /\
  wrr_reach pool (j, c) m = (j, wrr_next_level pool c).
Proof.
  intros Hj Hm. destruct m as [|m]; [lia|].
  cbn [wrr_path wrr_reach seq map]. unfold wrr_after; cbn [fst snd].
  destruct (Nat.ltb_spec (S j) (length pool)); [lia|].
  destruct (wrr_path_inside m 0 (wrr_next_level pool c) ltac:(lia)) as [-> ->].
  split; [reflexivity|f_equal; lia].
Qed.

Lemma wrr_filter_level (c : Z) (l : list nat) :
  List.filter (wrr_passes pool) (map (fun i => (i, c)) l)
  = map (fun i => (i, c)) (List.filter (wrr_eligible pool c) l).
Proof.
  induction l as [|i l IH]; [reflexivity|].
  cbn [map List.filter]. unfold wrr_passes at 1; cbn [fst snd].
  destruct (wrr_eligible pool c i); cbn [map]; rewrite IH; reflexivity.
Qed.

Lemma wrr_next_level_down (k : nat) :
  wrr_next_level pool (Z.of_nat (S (S k))) = Z.of_nat (S k).
Proof.
  unfold wrr_next_level. destruct (Z.leb_spec (Z.of_nat (S (S k)) - 1) 0); lia.
Qed.

(** From the last position, at a level followed by level [m + 1], the next
    [(m + 1) * length pool] turns go through the levels [m + 1], ..., 1. *)
Lemma wrr_served_levels (m : nat) :
  forall (j : nat) (c : Z),
    S j = length pool ->
    wrr_next_level pool c = Z.of_nat (S m) ->
    map fst (wrr_served pool (j, c) (S m * length pool))
    = wrr_levels_down pool (S m) /\
    exists pre,
      wrr_served pool (j, c) (S m * length pool)
      = pre ++ map (fun i => (i, 1))
                 (wrr_level pool 1 0 (length pool)).
Proof.
  induction m as [|m IH]; intros j c Hj Hc; unfold wrr_served in *.
  - cbn [Nat.mul]. rewrite Nat.add_0_r.
    destruct (wrr_path_level j (length pool) c Hj eq_refl) as [-> _].
    rewrite Hc, wrr_filter_level. change (Z.of_nat 1) with 1. split.
    + rewrite map_map. cbn [fst wrr_levels_down]. rewrite map_id, app_nil_r.
      reflexivity.
    + exists []. reflexivity.
  - change (S (S m) * length pool)%nat
      with (length pool + S m * length pool)%nat.
    rewrite wrr_path_app.
    destruct (wrr_path_level j (length pool) c Hj eq_refl) as [-> ->].
    rewrite Hc, List.filter_app, wrr_filter_level.
    destruct (IH j (Z.of_nat (S (S m))) Hj (wrr_next_level_down m))
      as [Hfst [pre Hpre]].
    split.
    + rewrite map_app, Hfst, map_map. cbn [fst].
      rewrite map_id. reflexivity.
    + exists (map (fun i => (i, Z.of_nat (S (S m))))
                (List.filter (wrr_eligible pool (Z.of_nat (S (S m))))
                   (seq 0 (length pool))) ++ pre).
      rewrite Hpre, app_assoc. reflexivity.
Qed.

(** A backend is served once on each level up to its weight. *)
Lemma wrr_levels_down_count (m i : nat) (s : simpleServer) :
  pool !! i = Some s ->
  count_occ Nat.eq_dec (wrr_levels_down pool m) i
  = Z.to_nat (Z.min (Z.of_nat m) (weight s)).
Proof.
  intros Hs. pose proof (lookup_lt_Some _ _ _ Hs) as Hi.
  induction m as [|m IH]; [cbn; lia|].
  cbn [wrr_levels_down]. rewrite count_occ_app, IH.
  unfold wrr_level. rewrite count_occ_filter_seq by lia.
  unfold wrr_eligible. rewrite Hs.
  destruct (Z.leb_spec (Z.of_nat (S m)) (weight s)); lia.
Qed.

(** Some backend passes at level 1 when the largest weight is positive. *)
Lemma wrr_level_one_nonempty :
  1 <= maxWeight pool -> wrr_level pool 1 0 (length pool) <> [].
Proof.
  intros Hmax. destruct (maxWeight_fold pool 0) as (_ & _ & [H0|(s & Hs & Hw)]).
  - unfold maxWeight in Hmax. lia.
  - apply list_elem_of_In, list_elem_of_lookup in Hs. destruct Hs as [i Hi].
    pose proof (lookup_lt_Some _ _ _ Hi) as Hlt.
    assert (HP : wrr_eligible pool 1 i = true).
    { unfold wrr_eligible. rewrite Hi. apply Z.leb_le.
      unfold maxWeight in Hmax. lia. }
    apply (filter_seq_last (wrr_eligible pool 1) 0 (length pool) i 0%nat);
      [lia|exact HP].
Qed.

End RotationLists.

(** ** Weighted round robin: one full cycle of the rotation *)

Lemma last_in_nonempty {A : Type} (l : list A) (d : A) :
  l <> [] -> In (List.last l d) l.
Proof.
  intros Hne. rewrite (app_removelast_last d Hne) at 2.
  apply in_or_app. right. left. reflexivity.
Qed.




